(** * Cerberus: agent coordination core

    A shallow embedding of the coordination code of
    [src/lib/agents/base-agent.ts], [src/lib/agents/intersection-agent.ts]
    and the reasoning client ([lib/nvidia]), with the properties the written
    specification states about them.

    Conventions of the embedding.
    - Clock readings ([Date.now()], parsed timestamps) are integers in
      milliseconds ([Z]).
    - Priorities and wait times in seconds are JavaScript numbers used as
      real quantities; they are modelled as exact rationals ([Q]), compared
      with [==].
    - The two consensus thresholds go through [Math.ceil], where binary64
      rounding could change an integer result; they are computed bit-exactly
      with the IEEE-754 operations of [SpecFloat].  So are the fairness
      penalties, which an auction adds to and multiplies by [0.95] again
      and again: the tracker holds binary64 numbers, and a priority
      subtracts the exact value of the penalty it reads.
    - A JavaScript exception is an explicit completion ([Thrown]); every
      handler is a function from the agent state to the new state and a
      completion.  Handlers run one at a time (no interleaving at [await]). *)

From Stdlib Require Import ZArith QArith Qabs Qminmax Qround Lia Lqa List Floats.SpecFloat.
From stdpp Require Import gmap strings list fin_maps.

Open Scope Z_scope.

(** ** JavaScript numbers where rounding is observable *)

Module Number.

Definition prec : Z := 53.
Definition emax : Z := 1024.

(** An integer-valued number (a [length], a [size], a count). *)
Definition of_Z (n : Z) : spec_float := binary_normalize prec emax n 0 false.

(** The decimal literal [num/den], correctly rounded as the parser does. *)
Definition literal (num den : Z) : spec_float :=
  SFdiv prec emax (of_Z num) (of_Z den).

(** [0.7] and [0.51] as binary64 values. *)
Definition lit_0_7 : spec_float := S754_finite false 6305039478318694 (-53).
Definition lit_0_51 : spec_float := S754_finite false 4593671619917906 (-53).

(** [0.95] as a binary64 value. *)
Definition lit_0_95 : spec_float := S754_finite false 8556839292003942 (-53).

Definition mul (x y : spec_float) : spec_float := SFmul prec emax x y.

Definition add (x y : spec_float) : spec_float := SFadd prec emax x y.

(** The numbers [x || fallback] replaces: zero of either sign, and NaN. *)
Definition falsy (x : spec_float) : bool :=
  match x with
  | S754_zero _ | S754_nan => true
  | _ => false
  end.

(** The rational a number stands for.  NaN, which [||] replaces before a
    score is read, counts as zero.  An infinite number has no rational
    value: scores of that size are outside what [Q] can hold, and it is
    read as zero as well. *)
Definition value (x : spec_float) : Q :=
  match x with
  | S754_finite s m e => (inject_Z (if s then Z.neg m else Z.pos m) * 2 ^ e)%Q
  | _ => 0%Q
  end.

(** [Math.ceil]: the least integer not below [x]; infinities, NaN and
    integers are returned unchanged, and a result of zero keeps the sign. *)
Definition Math_ceil (x : spec_float) : spec_float :=
  match x with
  | S754_finite s m e =>
      if 0 <=? e then x
      else
        let d := 2 ^ (- e) in
        let c := if s then - (Z.pos m / d) else - ((- Z.pos m) / d) in
        binary_normalize prec emax c 0 s
  | _ => x
  end.

(** [x >= y]; false as soon as one side is NaN. *)
Definition ge (x y : spec_float) : bool := SFleb y x.

(** [count >= Math.ceil(total * factor)] *)
Definition reaches (count total : Z) (factor : spec_float) : bool :=
  ge (of_Z count) (Math_ceil (mul (of_Z total) factor)).

(** The same threshold over exact rationals: [ceil (total * num / den)]. *)
Definition exact_ceil (total num den : Z) : Z := - ((- (total * num)) / den).

End Number.

(** ** Messages ([base-agent.ts]) *)

Inductive MessageType := proposal | acceptance | rejection | info | emergency.

Inductive MessageStatus := pending | delivered | expired.

#[global] Instance MessageType_eq_dec : EqDecision MessageType.
Proof. solve_decision. Defined.

#[global] Instance MessageStatus_eq_dec : EqDecision MessageStatus.
Proof. solve_decision. Defined.

(** The fields of [payload] (of type [any]) that the agents read.  A field
    the sender left out is [None] ([undefined]). *)
Record Payload := {
  p_type : option string;
  p_vehicleId : string;
  p_company : string;
  p_waitTime : option Q;
  p_passengers : option Q;
  p_batteryLevel : option Q;
  p_direction : option string;
  p_duration : option Q
}.

Record Message := {
  msg_id : string;
  timestamp : Z;            (* new Date(timestamp).getTime() *)
  sender : string;
  recipient : string;
  message_type : MessageType;
  priority : Z;
  payload : Payload;
  ttl : Z                   (* seconds *)
}.

(** What an agent puts into the payload of the messages it sends. *)
Inductive Body :=
| proposal_body (timeout : Z)
| crossing_request_ack (position : nat) (estimatedWait : Z)
| crossing_permission (intersection : string) (waitTime : Q) (crossNow : bool)
| emergency_yield (holdPosition : bool)
| status_response (queueLengths : list (string * nat)) (totalWaiting : nat)
                  (activeNegotiations : nat) (averageWaitTime : Q).

(** A row appended to [coordination_messages] by [sendMessage]
    ([msg_id] and [timestamp] are generated and left out). *)
Record Outgoing := {
  o_recipient : string;
  o_message_type : MessageType;
  o_payload : Body;
  o_priority : Z;
  o_ttl : Z
}.

Definition sendMessage (recipient : string) (messageType : MessageType)
    (payload : Body) (priority ttl : Z) : Outgoing :=
  {| o_recipient := recipient; o_message_type := messageType;
     o_payload := payload; o_priority := priority; o_ttl := ttl |}.

Definition default_priority : Z := 5.
Definition default_ttl : Z := 60.

Definition broadcast (recipients : list string) (messageType : MessageType)
    (payload : Body) (priority : Z) : list Outgoing :=
  map (fun r => sendMessage r messageType payload priority default_ttl) recipients.

(** A JavaScript completion. *)
Inductive Error :=
| TypeError (what : string)
| ConfigError (what : string)
| HandlerError (what : string).

Inductive Completion (A : Type) :=
| Returned (a : A)
| Thrown (e : Error).
Arguments Returned {A} a.
Arguments Thrown {A} e.

(** ** Consensus ([BaseAgent.gatherConsensus]) *)

Module Consensus.

(** A row of [coordination_messages] carrying the proposal id. *)
Record Row := { row_sender : string; row_message_type : MessageType }.

(** One turn of the wait loop: the clock read by the loop test and what the
    query of that turn answers ([None] when [data] is null). *)
Record Poll := { clock : Z; data : option (list Row) }.

Record Result := { approved : bool; responses : gmap string bool }.

(** [.or('message_type.eq.acceptance,message_type.eq.rejection')] *)
Definition is_vote (r : Row) : bool :=
  match row_message_type r with
  | acceptance | rejection => true
  | _ => false
  end.

(** [data.forEach(msg => responses.set(msg.sender, msg.message_type === 'acceptance'))] *)
Definition record (rows : list Row) (responses : gmap string bool) : gmap string bool :=
  fold_left
    (fun m msg => <[row_sender msg := bool_decide (row_message_type msg = acceptance)]> m)
    (filter (fun r => is_vote r = true) rows) responses.

(** [responses.size >= Math.ceil(participants.length * 0.7)] *)
Definition quorum (participants : list string) (responses : gmap string bool) : bool :=
  Number.reaches (Z.of_nat (size responses)) (Z.of_nat (length participants))
                 Number.lit_0_7.

(** The [while] loop.  [None]: the list of polls ended before the loop did. *)
Fixpoint wait (participants : list string) (startTime timeoutMs : Z)
    (polls : list Poll) (responses : gmap string bool) : option (gmap string bool) :=
  match polls with
  | [] => None
  | p :: rest =>
      if clock p - startTime <? timeoutMs then
        let responses' :=
          match data p with
          | Some rows => record rows responses
          | None => responses
          end in
        if quorum participants responses' then Some responses'
        else wait participants startTime timeoutMs rest responses'
      else Some responses
  end.

(** [Array.from(responses.values()).filter(v => v).length] *)
Definition approvals (responses : gmap string bool) : nat :=
  length (filter (fun v => v = true) (map snd (map_to_list responses))).

(** [approvals >= Math.ceil(responses.size * 0.51)] *)
Definition majority (responses : gmap string bool) : bool :=
  Number.reaches (Z.of_nat (approvals responses)) (Z.of_nat (size responses))
                 Number.lit_0_51.

Definition gatherConsensus (participants : list string) (timeoutMs startTime : Z)
    (polls : list Poll) : list Outgoing * option Result :=
  (broadcast participants proposal (proposal_body timeoutMs) 10,
   match wait participants startTime timeoutMs polls ∅ with
   | Some responses =>
       Some {| approved := majority responses; responses := responses |}
   | None => None
   end).

End Consensus.

(** ** Delivery of incoming messages ([BaseAgent.handleIncomingMessage]) *)

Module BaseAgent.
Section Delivery.

(** The concrete agent: its state and its [processMessage], told the clock
    reading at which it runs. *)
Context {Agent : Type}.
Variable processMessage : Z -> Message -> Agent -> Agent * Completion unit.

(** The agent, the [status] column of [coordination_messages] keyed by
    [msg_id], and the messages handed to [processMessage] so far (oldest
    first). *)
Record World := {
  agent : Agent;
  isActive : bool;
  coordination_messages : gmap string MessageStatus;
  processed : list Message
}.

(** [update({ status }).eq('msg_id', msgId)]: rows that do not exist are
    not created. *)
Definition updateMessageStatus (msgId : string) (status : MessageStatus)
    (w : World) : World :=
  {| agent := agent w; isActive := isActive w;
     coordination_messages := alter (fun _ => status) msgId (coordination_messages w);
     processed := processed w |}.

Definition handleIncomingMessage (now : Z) (message : Message) (w : World)
    : World * Completion unit :=
  let messageAge := now - timestamp message in
  if messageAge >? ttl message * 1000 then
    (updateMessageStatus (msg_id message) expired w, Returned tt)
  else
    let '(agent', completion) := processMessage now message (agent w) in
    let w' := {| agent := agent'; isActive := isActive w;
                 coordination_messages := coordination_messages w;
                 processed := processed w ++ [message] |} in
    match completion with
    | Returned _ => (updateMessageStatus (msg_id message) delivered w', Returned tt)
    | Thrown e => (w', Thrown e)
    end.

(** The subscription callback, run for every inserted row addressed to the
    agent. *)
Definition on_insert (now : Z) (message : Message) (w : World)
    : World * Completion unit :=
  if isActive w then handleIncomingMessage now message w else (w, Returned tt).

End Delivery.
End BaseAgent.

Arguments BaseAgent.World : clear implicits.

(** ** The reasoning client ([NemotronClient.reason], [negotiateIntersection]) *)

Module Nvidia.

(** The result object an auction reads ([AuctionResult], received as [any]):
    a key the object lacks is [None]. *)
Record AuctionResult := {
  crossingOrder : option (list string);
  waitTimes : option (gmap string Q);
  fairnessAdjustments : option (list (string * spec_float))
}.

(** What [JSON.parse] can hand back. *)
Inductive Json :=
| json_null
| json_other                      (* a number, a string, a boolean, an array *)
| json_object (o : AuctionResult).

Inductive ResponseBody :=
| InvalidBody                     (* response.json() rejects, or has no choices *)
| Content (parsed : option Json).  (* JSON.parse(content); None when it throws *)

Inductive FetchOutcome :=
| NetworkError
| Response (status : Z) (body : ResponseBody).

(** The value [reason] resolves to. *)
Inductive Decision :=
| error_object (error : string)
| parsed_json (j : Json).

Definition ok (status : Z) : bool := (200 <=? status) && (status <=? 299).

Definition reason (outcome : FetchOutcome) : Decision :=
  match outcome with
  | NetworkError => error_object "Reasoning failed"
  | Response status body =>
      if ok status then
        match body with
        | InvalidBody => error_object "Reasoning failed"
        | Content (Some j) => parsed_json j
        | Content None => error_object "Failed to parse response"
        end
      else error_object "Reasoning failed"
  end.

Definition getNemotronClient (NVIDIA_API_KEY : option string) : Completion string :=
  match NVIDIA_API_KEY with
  | Some (String c s) => Returned (String c s)
  | _ => Thrown (ConfigError "NVIDIA_API_KEY not configured")
  end.

Definition negotiateIntersection (NVIDIA_API_KEY : option string)
    (outcome : FetchOutcome) : Completion Decision :=
  match getNemotronClient NVIDIA_API_KEY with
  | Returned _ => Returned (reason outcome)
  | Thrown e => Thrown e
  end.

(** Reading a key of the resolved value; [None] stands for [undefined]. *)
Definition fields (d : Decision) : AuctionResult :=
  match d with
  | parsed_json (json_object o) => o
  | _ => {| crossingOrder := None; waitTimes := None; fairnessAdjustments := None |}
  end.

End Nvidia.

(** ** The intersection agent ([intersection-agent.ts]) *)

Module Intersection.
Import Nvidia.

Record CrossingRequest := {
  vehicleId : string;
  company : string;
  arrivalTime : Z;
  waitTime : Q;
  priority : Q;
  passengers : Q;
  batteryLevel : Q;
  direction : option string
}.

(** [intersectionData] handed to [negotiateIntersection]. *)
Record IntersectionData := {
  queues : list (string * list CrossingRequest);
  fairness_history : gmap string spec_float;
  current_time : Z;
  requests : list CrossingRequest;
  intersection : string
}.

Inductive Effect :=
| Send (m : Outgoing)
| Negotiate (data : IntersectionData)
| LogEvent (participants : list string) (vehicles_coordinated : nat)
| UpsertState (queue_lengths : list (string * nat)) (active_negotiations : list Z)
              (emergency_active : option bool) (emergency_duration : option Q).

(** The agent.  [queuesByDirection] is the [Map] in insertion order; a
    negotiation id [neg-<clock>] is kept as its clock reading; [effects]
    lists what the agent did to the outside, oldest first. *)
Record Agent := {
  intersectionId : string;
  queuesByDirection : list (string * list CrossingRequest);
  currentNegotiations : gset Z;
  fairnessTracker : gmap string spec_float;
  effects : list Effect
}.

Definition directions : list string :=
  ["north"; "south"; "east"; "west";
   "northeast"; "northwest"; "southeast"; "southwest"]%string.

Definition initializeQueues : list (string * list CrossingRequest) :=
  map (fun dir => (dir, [])) directions.

Definition new (intersectionId : string) : Agent :=
  {| intersectionId := intersectionId;
     queuesByDirection := initializeQueues;
     currentNegotiations := ∅;
     fairnessTracker := ∅;
     effects := [] |}.

Definition with_queues (qs : list (string * list CrossingRequest)) (a : Agent) : Agent :=
  {| intersectionId := intersectionId a; queuesByDirection := qs;
     currentNegotiations := currentNegotiations a;
     fairnessTracker := fairnessTracker a; effects := effects a |}.

Definition with_negotiations (n : gset Z) (a : Agent) : Agent :=
  {| intersectionId := intersectionId a; queuesByDirection := queuesByDirection a;
     currentNegotiations := n;
     fairnessTracker := fairnessTracker a; effects := effects a |}.

Definition with_fairness (f : gmap string spec_float) (a : Agent) : Agent :=
  {| intersectionId := intersectionId a; queuesByDirection := queuesByDirection a;
     currentNegotiations := currentNegotiations a;
     fairnessTracker := f; effects := effects a |}.

Definition emit (es : list Effect) (a : Agent) : Agent :=
  {| intersectionId := intersectionId a; queuesByDirection := queuesByDirection a;
     currentNegotiations := currentNegotiations a;
     fairnessTracker := fairnessTracker a; effects := effects a ++ es |}.

(** *** The queue map *)

(** [queuesByDirection.get(direction)] *)
Fixpoint get (direction : option string)
    (qs : list (string * list CrossingRequest)) : option (list CrossingRequest) :=
  match direction, qs with
  | Some d, (k, q) :: rest => if String.eqb k d then Some q else get direction rest
  | _, _ => None
  end.

(** In-place change of the array stored under [d]. *)
Fixpoint update (d : string) (f : list CrossingRequest -> list CrossingRequest)
    (qs : list (string * list CrossingRequest)) : list (string * list CrossingRequest) :=
  match qs with
  | [] => []
  | (k, q) :: rest =>
      if String.eqb k d then (k, f q) :: rest else (k, q) :: update d f rest
  end.

(** *** Priority and fairness *)

(** [x || fallback] on a number that may be missing: zero is falsy. *)
Definition or_else (x : option Q) (fallback : Q) : Q :=
  match x with
  | Some v => if Qeq_bool v 0 then fallback else v
  | None => fallback
  end.

(** [payload.batteryLevel < 20]; a comparison with [undefined] is false. *)
Definition battery_critical (b : option Q) : bool :=
  match b with
  | Some v => if Qlt_le_dec v 20 then true else false
  | None => false
  end.

Definition Math_max (x y : Q) : Q := if Qlt_le_dec x y then y else x.

(** [fairnessTracker.get(company) || 0] on a tracked number that may be
    missing. *)
Definition tracked (tracker : gmap string spec_float) (company : string) : spec_float :=
  match tracker !! company with
  | Some x => if Number.falsy x then Number.of_Z 0 else x
  | None => Number.of_Z 0
  end.

(** The penalty [calculatePriority] subtracts for a company. *)
Definition penalty (tracker : gmap string spec_float) (company : string) : Q :=
  Number.value (tracked tracker company).

Definition calculatePriority (fairnessTracker : gmap string spec_float)
    (payload : Payload) : Q :=
  let priority := 0%Q in
  let priority := (priority + or_else (p_waitTime payload) 0 / 60 * 10)%Q in
  let priority := (priority + or_else (p_passengers payload) 0 * 5)%Q in
  let priority :=
    if battery_critical (p_batteryLevel payload) then (priority + 50)%Q else priority in
  let companyPenalty := penalty fairnessTracker (p_company payload) in
  let priority := (priority - companyPenalty)%Q in
  Math_max 0 priority.

(** [{ ...req, waitTime: req.waitTime }] as [calculatePriority] reads it. *)
Definition spread (req : CrossingRequest) : Payload :=
  {| p_type := None; p_vehicleId := vehicleId req; p_company := company req;
     p_waitTime := Some (waitTime req); p_passengers := Some (passengers req);
     p_batteryLevel := Some (batteryLevel req); p_direction := direction req;
     p_duration := None |}.

(** The first loop of [updateFairnessScores]. *)
Definition apply_adjustments (adjustments : list (string * spec_float))
    (tracker : gmap string spec_float) : gmap string spec_float :=
  fold_left
    (fun t '(company, adjustment) =>
       let current := tracked t company in
       <[company := Number.add current adjustment]> t)
    adjustments tracker.

(** [value * 0.95] *)
Definition decayed (value : spec_float) : spec_float :=
  Number.mul value Number.lit_0_95.

(** The second loop of [updateFairnessScores]. *)
Definition decay_all (tracker : gmap string spec_float) : gmap string spec_float :=
  decayed <$> tracker.

Definition updateFairnessScores (result : Decision) (a : Agent)
    : Agent * Completion unit :=
  match result with
  | parsed_json json_null =>
      (a, Thrown (TypeError "cannot destructure fairnessAdjustments of null"))
  | _ =>
      match fairnessAdjustments (fields result) with
      | None => (a, Thrown (TypeError "cannot convert undefined to object"))
      | Some adjustments =>
          (with_fairness (decay_all (apply_adjustments adjustments (fairnessTracker a))) a,
           Returned tt)
      end
  end.

(** *** Handlers *)

(** A handler changes the agent and returns or throws. *)
Definition M (A : Type) : Type := Agent -> Agent * Completion A.

Definition ret {A} (x : A) : M A := fun a => (a, Returned x).

Definition throw {A} (e : Error) : M A := fun a => (a, Thrown e).

Definition bind {A B} (m : M A) (k : A -> M B) : M B :=
  fun a =>
    match m a with
    | (a', Returned x) => k x a'
    | (a', Thrown e) => (a', Thrown e)
    end.

Definition read : M Agent := fun a => (a, Returned a).

Definition modify (f : Agent -> Agent) : M unit := fun a => (f a, Returned tt).

(** [try { m } finally { cleanup }] *)
Definition finally {A} (m : M A) (cleanup : Agent -> Agent) : M A :=
  fun a => let '(a', r) := m a in (cleanup a', r).

#[local] Notation "x <- m ;; k" := (bind m (fun x => k))
  (at level 100, m at next level, right associativity).
#[local] Notation "m ;;; k" := (bind m (fun _ => k))
  (at level 100, right associativity).

Definition send (recipient : string) (messageType : MessageType) (payload : Body)
    (priority : Z) : M unit :=
  modify (emit [Send (sendMessage recipient messageType payload priority default_ttl)]).

Definition shouldNegotiate (a : Agent) : bool :=
  let activeDirections :=
    fold_left (fun n '(_, queue) => if (0 <? length queue)%nat then S n else n)
              (queuesByDirection a) 0%nat in
  (2 <=? activeDirections)%nat && (size (currentNegotiations a) =? 0)%nat.

Definition estimateWaitTime (direction : option string) (a : Agent) : Z :=
  match get direction (queuesByDirection a) with
  | None => 0
  | Some queue =>
      let position := Z.of_nat (length queue) in
      let avgCrossingTime := 15 in
      position * avgCrossingTime
  end.

Definition calculateAverageWaitTime (now : Z) (a : Agent) : Q :=
  let all := concat (map snd (queuesByDirection a)) in
  let totalWait :=
    fold_left (fun t r => (t + inject_Z (now - arrivalTime r) / 1000)%Q) all 0%Q in
  let totalVehicles := length all in
  if (0 <? totalVehicles)%nat then (totalWait / inject_Z (Z.of_nat totalVehicles))%Q
  else 0%Q.

Definition queue_lengths (a : Agent) : list (string * nat) :=
  map (fun '(dir, queue) => (dir, length queue)) (queuesByDirection a).

Definition updateIntersectionState (emergency_active : option bool)
    (emergency_duration : option Q) : M unit :=
  a <- read ;;
  modify (emit [UpsertState (queue_lengths a) (elements (currentNegotiations a))
                            emergency_active emergency_duration]).

(** [queue.findIndex(r => r.vehicleId === vehicleId)] then
    [queue.splice(index, 1)]. *)
Fixpoint splice_vehicle (v : string) (queue : list CrossingRequest)
    : option CrossingRequest * list CrossingRequest :=
  match queue with
  | [] => (None, [])
  | r :: rest =>
      if String.eqb (vehicleId r) v then (Some r, rest)
      else let '(found, rest') := splice_vehicle v rest in (found, r :: rest')
  end.

(** The inner [forEach] of [executeCrossingOrder]: every queue is searched;
    the request found last is the one remembered. *)
Fixpoint take_vehicle (v : string) (qs : list (string * list CrossingRequest))
    (vehicleRequest : option CrossingRequest)
    : option CrossingRequest * list (string * list CrossingRequest) :=
  match qs with
  | [] => (vehicleRequest, [])
  | (k, queue) :: rest =>
      let '(found, queue') := splice_vehicle v queue in
      let vehicleRequest' :=
        match found with Some r => Some r | None => vehicleRequest end in
      let '(last, rest') := take_vehicle v rest vehicleRequest' in
      (last, (k, queue') :: rest')
  end.

Fixpoint cross (waitTimes : option (gmap string Q)) (order : list string) : M unit :=
  match order with
  | [] => ret tt
  | v :: rest =>
      a <- read ;;
      let '(vehicleRequest, qs) := take_vehicle v (queuesByDirection a) None in
      modify (with_queues qs) ;;;
      match vehicleRequest with
      | None => ret tt
      | Some _ =>
          match waitTimes with
          | None => throw (TypeError "cannot read properties of undefined")
          | Some times =>
              send ("vehicle-" +:+ v) info
                   (crossing_permission (intersectionId a) (or_else (times !! v) 0) true)
                   10
          end
      end ;;;
      cross waitTimes rest
  end.

Definition executeCrossingOrder (result : Decision) : M unit :=
  match result with
  | parsed_json json_null =>
      throw (TypeError "cannot destructure crossingOrder of null")
  | _ =>
      match crossingOrder (fields result) with
      | None => throw (TypeError "crossingOrder is not iterable")
      | Some order => cross (waitTimes (fields result)) order
      end
  end.

(** [req.waitTime = ...; req.priority = this.calculatePriority({...})] on
    the request objects, which the queues share with [allRequests]. *)
Definition refresh (tracker : gmap string spec_float) (now : Z) (req : CrossingRequest)
    : CrossingRequest :=
  let req' :=
    {| vehicleId := vehicleId req; company := company req;
       arrivalTime := arrivalTime req;
       waitTime := (inject_Z (now - arrivalTime req) / 1000)%Q;
       priority := priority req; passengers := passengers req;
       batteryLevel := batteryLevel req; direction := direction req |} in
  {| vehicleId := vehicleId req'; company := company req';
     arrivalTime := arrivalTime req'; waitTime := waitTime req';
     priority := calculatePriority tracker (spread req');
     passengers := passengers req'; batteryLevel := batteryLevel req';
     direction := direction req' |}.

Definition refresh_all (now : Z) (a : Agent) : Agent :=
  with_queues
    (map (fun '(k, queue) => (k, map (refresh (fairnessTracker a) now) queue))
         (queuesByDirection a)) a.

Section Adapter.

(** The outside of the agent: the configured key and what the HTTP call
    of [reason] meets for a given request. *)
Variable NVIDIA_API_KEY : option string.
Variable fetch : IntersectionData -> FetchOutcome.

Definition makeDecision (now : Z) (context : list CrossingRequest) : M Decision :=
  a <- read ;;
  let intersectionData :=
    {| queues := queuesByDirection a; fairness_history := fairnessTracker a;
       current_time := now; requests := context;
       intersection := intersectionId a |} in
  modify (emit [Negotiate intersectionData]) ;;;
  match negotiateIntersection NVIDIA_API_KEY (fetch intersectionData) with
  | Returned d => ret d
  | Thrown e => throw e
  end.

Definition runAuctionNegotiation (now : Z) : M unit :=
  let negotiationId := now in
  modify (fun a => with_negotiations ({[negotiationId]} ∪ currentNegotiations a) a) ;;;
  finally
    (modify (refresh_all now) ;;;
     a <- read ;;
     let allRequests := concat (map snd (queuesByDirection a)) in
     result <- makeDecision now allRequests ;;
     executeCrossingOrder result ;;;
     updateFairnessScores result ;;;
     modify (emit [LogEvent (map vehicleId allRequests) (length allRequests)]))
    (fun a => with_negotiations (currentNegotiations a ∖ {[negotiationId]}) a).

Definition handleCrossingRequest (now : Z) (message : Message) : M unit :=
  a <- read ;;
  let request :=
    {| vehicleId := p_vehicleId (payload message);
       company := p_company (payload message);
       arrivalTime := now;
       waitTime := 0;
       priority := calculatePriority (fairnessTracker a) (payload message);
       passengers := or_else (p_passengers (payload message)) 0;
       batteryLevel := or_else (p_batteryLevel (payload message)) 100;
       direction := p_direction (payload message) |} in
  match direction request, get (direction request) (queuesByDirection a) with
  | Some d, Some _ =>
      modify (fun a => with_queues (update d (fun q => q ++ [request])
                                           (queuesByDirection a)) a) ;;;
      a' <- read ;;
      if shouldNegotiate a' then runAuctionNegotiation now else ret tt
  | _, _ => ret tt
  end ;;;
  a'' <- read ;;
  let position :=
    match get (direction request) (queuesByDirection a'') with
    | Some queue => length queue
    | None => 0%nat
    end in
  send (sender message) info
       (crossing_request_ack position (estimateWaitTime (direction request) a''))
       default_priority.

Definition handleEmergencyPreemption (message : Message) : M unit :=
  a <- read ;;
  modify (emit (map (fun request =>
                       Send (sendMessage ("vehicle-" +:+ vehicleId request) emergency
                                         (emergency_yield true) 1000 default_ttl))
                    (concat (map snd (queuesByDirection a))))) ;;;
  modify (with_queues (map (fun '(k, _) => (k, [])) (queuesByDirection a))) ;;;
  updateIntersectionState (Some true) (p_duration (payload message)).

Definition handleStatusQuery (now : Z) (message : Message) : M unit :=
  a <- read ;;
  send (sender message) info
       (status_response (queue_lengths a)
                        (length (concat (map snd (queuesByDirection a))))
                        (size (currentNegotiations a))
                        (calculateAverageWaitTime now a))
       default_priority.

Definition processMessage (now : Z) (message : Message) : M unit :=
  match p_type (payload message) with
  | Some t =>
      if String.eqb t "crossing-request" then handleCrossingRequest now message
      else if String.eqb t "emergency-preemption" then handleEmergencyPreemption message
      else if String.eqb t "status-query" then handleStatusQuery now message
      else ret tt
  | None => ret tt
  end.

End Adapter.

End Intersection.

(** ** Dispatch on the payload type ([processMessage] of every agent) *)

Module Dispatch.
Section Handlers.

(** The agent's state, the messages it receives, and the table
    [messageHandlers] filled by [setupMessageHandlers]. *)
Context {Agent Incoming : Type}.
Variable type_of : Incoming -> option string.
Variable messageHandlers : list (string * (Incoming -> Agent -> Agent * Completion unit)).

(** [messageHandlers.get(key)]: the handler set last for the key. *)
Definition handler_for (key : string)
    : option (Incoming -> Agent -> Agent * Completion unit) :=
  snd <$> List.find (fun entry => String.eqb (fst entry) key) (rev messageHandlers).

(** [const handler = this.messageHandlers.get(message.payload.type);
     if (handler) await handler(message)] *)
Definition processMessage (message : Incoming) (a : Agent) : Agent * Completion unit :=
  match type_of message with
  | Some t =>
      match handler_for t with
      | Some handler => handler message a
      | None => (a, Returned tt)
      end
  | None => (a, Returned tt)
  end.

End Handlers.
End Dispatch.

(** The [type] key of the payloads the agents send; the proposal of
    [gatherConsensus] has none. *)
Definition payload_type (payload : Body) : option string :=
  match payload with
  | proposal_body _ => None
  | crossing_request_ack _ _ => Some "crossing-request-ack"%string
  | crossing_permission _ _ _ => Some "crossing-permission"%string
  | emergency_yield _ => Some "emergency-yield"%string
  | status_response _ _ _ _ => Some "status-response"%string
  end.

(** ** The fleet coordinator ([fleet-coordinator.ts]) *)

Module Fleet.

Inductive Status := idle | pickup | enroute | charging | emergency_yield.

Inductive PrivacyLevel := minimal | standard | cooperative.

#[global] Instance Status_eq_dec : EqDecision Status.
Proof. solve_decision. Defined.

Record VehicleInfo := {
  id : string;
  status : Status;
  batteryLevel : Q;
  passengerCount : Z;
  currentDistrict : string;
  waitTime : Q
}.

Record FleetConfig := {
  company : string;
  fleetSize : Z;
  privacyLevel : PrivacyLevel;
  avoidDistricts : option (list string)     (* routingPreferences.avoidDistricts *)
}.

(** The keys of a coordination proposal (of type [any]) that the coordinator
    reads; a missing number is [None], a missing flag is falsy. *)
Record Proposal := {
  requiresRouteSharing : bool;
  requiresPassengerInfo : bool;
  requiresFullRoute : bool;
  expectedBenefit : option Q;
  affectedVehicles : option Z;
  priority : option Z;
  requiredVehicles : option Z;
  district : string
}.

(** What the coordinator sends. *)
Inductive Reply :=
| rejected (proposalId : string) (reason : string)
| accepted (proposalId : string) (commitment : list string)
| rebalance_directive (targetDistrict : string)
| rebalancing_ack (vehiclesRebalanced : nat) (expectedArrival : Z).

Record Sent := {
  to : string;
  kind : MessageType;
  reply : Reply
}.

(** The coordinator.  [activeVehicles] is the [Map] in insertion order. *)
Record Agent := {
  fleetConfig : FleetConfig;
  activeVehicles : list (string * VehicleInfo);
  priorityScore : Z;
  recentCoordinations : Z;
  outbox : list Sent
}.

Definition new (config : FleetConfig) : Agent :=
  {| fleetConfig := config; activeVehicles := []; priorityScore := 50;
     recentCoordinations := 0; outbox := [] |}.

Definition post (messages : list Sent) (a : Agent) : Agent :=
  {| fleetConfig := fleetConfig a; activeVehicles := activeVehicles a;
     priorityScore := priorityScore a; recentCoordinations := recentCoordinations a;
     outbox := outbox a ++ messages |}.

(** [activeVehicles.set(id, info)] *)
Fixpoint Map_set (key : string) (info : VehicleInfo)
    (vehicles : list (string * VehicleInfo)) : list (string * VehicleInfo) :=
  match vehicles with
  | [] => [(key, info)]
  | (k, v) :: rest =>
      if String.eqb k key then (k, info) :: rest else (k, v) :: Map_set key info rest
  end.

(** A row of [vehicle_states] as [updateFleetStatus] reads it. *)
Record VehicleState := {
  vehicle_id : string;
  row_status : Status;
  battery_level : option Q;
  passenger_count : option Z;
  row_district : option string;
  wait_time : option Q
}.

(** The part of [updateFleetStatus] that rebuilds [activeVehicles]. *)
Definition track (rows : list VehicleState) : list (string * VehicleInfo) :=
  fold_left
    (fun vehicles v =>
       Map_set (vehicle_id v)
         {| id := vehicle_id v;
            status := row_status v;
            batteryLevel := Intersection.or_else (battery_level v) 100;
            passengerCount :=
              match passenger_count v with Some n => n | None => 0 end;
            currentDistrict :=
              match row_district v with
              | Some (String c s) => String c s
              | _ => "unknown"%string
              end;
            waitTime := Intersection.or_else (wait_time v) 0 |}
         vehicles)
    rows [].

Record FleetStatistics := {
  activeCount : nat;
  idleCount : nat;
  passengerMiles : Q;
  avgWaitTime : Q
}.

Definition calculateFleetStatistics (a : Agent) : FleetStatistics :=
  let '(activeCount, idleCount, totalWaitTime, passengerMiles) :=
    fold_left
      (fun '(activeCount, idleCount, totalWaitTime, passengerMiles) '(_, vehicle) =>
         let '(activeCount, idleCount) :=
           if decide (status vehicle = idle) then (activeCount, S idleCount)
           else (S activeCount, idleCount) in
         let totalWaitTime := (totalWaitTime + waitTime vehicle)%Q in
         let passengerMiles :=
           if decide (status vehicle = enroute) then
             if 0 <? passengerCount vehicle then (passengerMiles + (1 # 10))%Q
             else passengerMiles
           else passengerMiles in
         (activeCount, idleCount, totalWaitTime, passengerMiles))
      (activeVehicles a) (0%nat, 0%nat, 0%Q, 0%Q) in
  {| activeCount := activeCount;
     idleCount := idleCount;
     passengerMiles := passengerMiles;
     avgWaitTime :=
       if (0 <? length (activeVehicles a))%nat
       then (totalWaitTime / inject_Z (Z.of_nat (length (activeVehicles a))))%Q
       else 0%Q |}.

Definition updatePriorityScore (a : Agent) : Agent :=
  let priorityScore :=
    if 5 <? recentCoordinations a then Z.max 0 (priorityScore a - 5)
    else if recentCoordinations a <? 2 then Z.min 100 (priorityScore a + 2)
    else priorityScore a in
  {| fleetConfig := fleetConfig a; activeVehicles := activeVehicles a;
     priorityScore := priorityScore; recentCoordinations := 0;
     outbox := outbox a |}.

Definition meetsPrivacyRequirements (a : Agent) (proposal : Proposal) : bool :=
  match privacyLevel (fleetConfig a) with
  | minimal => negb (requiresRouteSharing proposal) && negb (requiresPassengerInfo proposal)
  | standard => negb (requiresFullRoute proposal)
  | cooperative => true
  end.

(** [proposal.expectedBenefit < 0] *)
Definition negative_benefit (proposal : Proposal) : bool :=
  match expectedBenefit proposal with
  | Some benefit => if Qlt_le_dec benefit 0 then true else false
  | None => false
  end.

(** [proposal.affectedVehicles > this.activeVehicles.size * 0.5]; halving is
    exact in binary64. *)
Definition too_many_affected (a : Agent) (proposal : Proposal) : bool :=
  match affectedVehicles proposal with
  | Some n => Z.of_nat (length (activeVehicles a)) <? 2 * n
  | None => false
  end.

(** [this.priorityScore < 30 && proposal.priority < 8] *)
Definition low_standing (a : Agent) (proposal : Proposal) : bool :=
  (priorityScore a <? 30)
  && match priority proposal with Some p => p <? 8 | None => false end.

Definition evaluateCoordinationProposal (a : Agent) (proposal : Proposal) : bool :=
  if negative_benefit proposal then false
  else if too_many_affected a proposal then false
  else if low_standing a proposal then false
  else true.

Definition getCoordinationReasoning (a : Agent) (proposal : Proposal) : string :=
  if negative_benefit proposal then "Negative expected benefit"
  else if too_many_affected a proposal then "Too many vehicles affected"
  else "Proposal accepted".

(** [vehicles.length < requiredCount && ...] inside the [forEach]. *)
Definition select (limit : option Z) (eligible : VehicleInfo -> bool)
    (vehicles : list (string * VehicleInfo)) : list string :=
  fold_left
    (fun chosen '(key, vehicle) =>
       if match limit with
          | Some n => Z.of_nat (length chosen) <? n
          | None => false
          end && eligible vehicle
       then chosen ++ [key] else chosen)
    vehicles [].

Definition selectVehiclesForCoordination (a : Agent) (proposal : Proposal) : list string :=
  let requiredCount :=
    match requiredVehicles proposal with
    | Some 0 | None => 5
    | Some n => n
    end in
  select (Some requiredCount)
    (fun vehicle =>
       bool_decide (status vehicle = idle)
       && String.eqb (currentDistrict vehicle) (district proposal))
    (activeVehicles a).

Definition selectVehiclesForRebalancing (a : Agent) (targetDistrict : string)
    (count : option Z) : list string :=
  select count
    (fun vehicle =>
       bool_decide (status vehicle = idle)
       && (passengerCount vehicle =? 0)
       && negb match avoidDistricts (fleetConfig a) with
               | Some avoided => existsb (String.eqb targetDistrict) avoided
               | None => false
               end)
    (activeVehicles a).

(** A [coordination-proposal] message. *)
Record CoordinationProposal := {
  sender : string;
  proposalId : string;
  proposal : Proposal
}.

Definition handleCoordinationProposal (message : CoordinationProposal) (a : Agent)
    : Agent :=
  if negb (meetsPrivacyRequirements a (proposal message)) then
    post [ {| to := sender message; kind := rejection;
              reply := rejected (proposalId message) "privacy_constraint" |} ] a
  else if evaluateCoordinationProposal a (proposal message) then
    let a' :=
      post [ {| to := sender message; kind := acceptance;
                reply := accepted (proposalId message)
                           (selectVehiclesForCoordination a (proposal message)) |} ] a in
    {| fleetConfig := fleetConfig a'; activeVehicles := activeVehicles a';
       priorityScore := priorityScore a';
       recentCoordinations := recentCoordinations a' + 1;
       outbox := outbox a' |}
  else
    post [ {| to := sender message; kind := rejection;
              reply := rejected (proposalId message)
                         (getCoordinationReasoning a (proposal message)) |} ] a.

(** A [rebalancing-request] message. *)
Record RebalancingRequest := {
  requester : string;
  toDistrict : string;
  vehicleCount : option Z
}.

Definition estimateArrivalTime : Z := 600.

Definition handleRebalancingRequest (message : RebalancingRequest) (a : Agent) : Agent :=
  let selectedVehicles :=
    selectVehiclesForRebalancing a (toDistrict message) (vehicleCount message) in
  if (0 <? length selectedVehicles)%nat then
    post
      (map (fun vehicleId =>
              {| to := "vehicle-" +:+ vehicleId; kind := info;
                 reply := rebalance_directive (toDistrict message) |})
           selectedVehicles
       ++ [ {| to := requester message; kind := info;
               reply := rebalancing_ack (length selectedVehicles) estimateArrivalTime |} ])
      a
  else a.

End Fleet.

(** ** The master orchestrator ([master-orchestrator.ts]) *)

(** Levels, wait times and scores are exact rationals, as the scores of the
    intersection agent are.  The one comparison with a literal,
    [congestionLevel > 0.7], is between [vehicleCount / 100] and seven
    tenths, both of which binary64 rounds to the same number at seventy
    vehicles. *)

Module Master.

Record DistrictCongestion := {
  districtId : string;
  congestionLevel : Q;
  vehicleCount : nat;
  avgWaitTime : Q
}.

Definition Math_min (x y : Q) : Q := if Qlt_le_dec y x then y else x.

(** One entry of [getDistrictCongestion]: [wait_times] holds, for every
    vehicle row of the district, its [wait_time] when the row has one. *)
Definition congestion (district : string) (wait_times : list (option Q))
    : DistrictCongestion :=
  let vehicleCount := length wait_times in
  let avgWaitTime :=
    if (0 <? vehicleCount)%nat then
      (fold_left
         (fun acc v => (acc + match v with Some waitTime => waitTime | None => 0 end)%Q)
         wait_times 0%Q
       / inject_Z (Z.of_nat vehicleCount))%Q
    else 0%Q in
  {| districtId := district;
     congestionLevel := Math_min (inject_Z (Z.of_nat vehicleCount) / 100) 1;
     vehicleCount := vehicleCount;
     avgWaitTime := avgWaitTime |}.

(** [congestionData.filter(d => d.congestionLevel > 0.7)] *)
Definition hotspots (congestionData : list DistrictCongestion) : list DistrictCongestion :=
  List.filter (fun d => if Qlt_le_dec (7 # 10) (congestionLevel d) then true else false)
              congestionData.

(** [companyStats.get(stat.company).push(stat.priority_score)], the key
    being created with an empty array when it is new. *)
Fixpoint push_score (company : string) (score : Q) (companyStats : list (string * list Q))
    : list (string * list Q) :=
  match companyStats with
  | [] => [(company, [score])]
  | (k, scores) :: rest =>
      if String.eqb k company then (k, scores ++ [score]) :: rest
      else (k, scores) :: push_score company score rest
  end.

Definition sum (scores : list Q) : Q := fold_left Qplus scores 0%Q.

Definition average (scores : list Q) : Q :=
  (sum scores / inject_Z (Z.of_nat (length scores)))%Q.

(** [calculateFairnessScore] on the rows of [fleet_statistics] it reads
    ([company], [priority_score]). *)
Definition calculateFairnessScore (fleetStats : list (string * Q)) : Q :=
  match fleetStats with
  | [] => 1%Q
  | _ =>
      let companyStats :=
        fold_left (fun stats '(company, priority_score) =>
                     push_score company priority_score stats)
                  fleetStats [] in
      let avgScores := map (fun entry => average (snd entry)) companyStats in
      let mean := average avgScores in
      let variance :=
        (fold_left (fun acc score => (acc + (score - mean) * (score - mean))%Q)
                   avgScores 0%Q
         / inject_Z (Z.of_nat (length avgScores)))%Q in
      Intersection.Math_max 0 (1 - variance / 100)
  end.

End Master.

(** * Vocabulary of the statements *)

(** ** Consensus rounds *)

(** The loop test of [gatherConsensus] fails at this poll. *)
Definition timed_out (startTime timeoutMs : Z) (p : Consensus.Poll) : Prop :=
  timeoutMs <= Consensus.clock p - startTime.

(** The query of this poll brings no vote. *)
Definition silent (p : Consensus.Poll) : Prop :=
  Consensus.data p = None \/ Consensus.data p = Some [].

(** The binary64 threshold and the exact one agree for all counts and totals
    up to [bound]. *)
Definition agree_upto (bound : nat) (factor : spec_float) (num den : Z) : bool :=
  forallb (fun total =>
    forallb (fun count =>
      Bool.eqb (Number.reaches (Z.of_nat count) (Z.of_nat total) factor)
               (Number.exact_ceil (Z.of_nat total) num den <=? Z.of_nat count))
      (seq 0 (S bound)))
    (seq 0 (S bound)).

Module Scenario.

Definition accepts (s : string) : Consensus.Row :=
  {| Consensus.row_sender := s; Consensus.row_message_type := acceptance |}.

Definition rejects (s : string) : Consensus.Row :=
  {| Consensus.row_sender := s; Consensus.row_message_type := rejection |}.

Definition ten : list string :=
  ["d1"; "d2"; "d3"; "d4"; "d5"; "d6"; "d7"; "d8"; "d9"; "d10"]%string.

Definition six : list Consensus.Row :=
  [accepts "d1"; accepts "d2"; rejects "d3"; accepts "d4"; rejects "d5";
   accepts "d6"]%string.

Definition seven : list Consensus.Row := six ++ [rejects "d7"]%string.

(** Six of ten answer; the clock passes the five seconds at the fourth poll. *)
Definition six_then_timeout : list Consensus.Poll :=
  [ {| Consensus.clock := 1000; Consensus.data := Some [] |};
    {| Consensus.clock := 1100; Consensus.data := Some six |};
    {| Consensus.clock := 1200; Consensus.data := None |};
    {| Consensus.clock := 6000; Consensus.data := Some seven |} ].

Definition seven_in_time : list Consensus.Poll :=
  [ {| Consensus.clock := 1000; Consensus.data := Some six |};
    {| Consensus.clock := 1100; Consensus.data := Some seven |};
    {| Consensus.clock := 1200; Consensus.data := Some seven |} ].

Definition nobody_answers : list Consensus.Poll :=
  [ {| Consensus.clock := 1000; Consensus.data := Some [] |};
    {| Consensus.clock := 3000; Consensus.data := None |};
    {| Consensus.clock := 6000; Consensus.data := Some [] |} ].

Definition six_responses : gmap string bool :=
  list_to_map [("d1", true); ("d2", true); ("d3", false); ("d4", true);
               ("d5", false); ("d6", true)]%string.

Definition seven_responses : gmap string bool :=
  <["d7"%string := false]> six_responses.

Definition six_result : Consensus.Result :=
  {| Consensus.approved := true; Consensus.responses := six_responses |}.

Definition seven_result : Consensus.Result :=
  {| Consensus.approved := true; Consensus.responses := seven_responses |}.

(** Fifty-one voters, twenty-six of them accepting. *)
Definition voter (i : nat) : string :=
  String (Ascii.ascii_of_nat (48 + i)) EmptyString.

Definition fifty_one : list Consensus.Row :=
  map (fun i => accepts (voter i)) (seq 0 26)
  ++ map (fun i => rejects (voter i)) (seq 26 25).

Definition fifty_one_responses : gmap string bool :=
  list_to_map (map (fun i => (voter i, (i <? 26)%nat)) (seq 0 51)).

End Scenario.

(** ** Intersections *)

Section IntersectionVocabulary.
Import Intersection Nvidia.

Definition keys (a : Agent) : list string := map fst (queuesByDirection a).

(** The counter of [shouldNegotiate]. *)
Definition activeDirections (qs : list (string * list CrossingRequest)) : nat :=
  fold_left (fun n '(_, queue) => if (0 <? length queue)%nat then S n else n) qs 0%nat.

(** The yield instruction [handleEmergencyPreemption] sends for a request. *)
Definition yield_to (request : CrossingRequest) : Effect :=
  Send (sendMessage ("vehicle-" +:+ vehicleId request) emergency
                    (emergency_yield true) 1000 default_ttl).

(** A relation between the agent before and after that every step keeps. *)
Definition stable (R : Agent -> Agent -> Prop) {A} (m : M A) : Prop :=
  forall a, R a (fst (m a)).

(** What the agent did is never undone: effects are only appended. *)
Definition grows (a b : Agent) : Prop := exists es, effects b = effects a ++ es.

Definition intersectionData (now : Z) (a : Agent) : IntersectionData :=
  {| queues := queuesByDirection a; fairness_history := fairnessTracker a;
     current_time := now; requests := concat (map snd (queuesByDirection a));
     intersection := intersectionId a |}.

(** The agent when [makeDecision] has just been called by an auction started
    at [now]. *)
Definition negotiating (now : Z) (a : Agent) : Agent :=
  let a1 := refresh_all now (with_negotiations ({[now]} ∪ currentNegotiations a) a) in
  emit [Negotiate (intersectionData now a1)] a1.

(** What [runAuctionNegotiation] does with the result of [makeDecision]. *)
Definition settle (result : Decision) (allRequests : list CrossingRequest) : M unit :=
  bind (executeCrossingOrder result) (fun _ =>
  bind (updateFairnessScores result) (fun _ =>
  modify (emit [LogEvent (map vehicleId allRequests) (length allRequests)]))).

(** The request object [handleCrossingRequest] builds. *)
Definition arriving (now : Z) (message : Message) (a : Agent) : CrossingRequest :=
  {| vehicleId := p_vehicleId (payload message);
     company := p_company (payload message);
     arrivalTime := now;
     waitTime := 0;
     priority := calculatePriority (fairnessTracker a) (payload message);
     passengers := or_else (p_passengers (payload message)) 0;
     batteryLevel := or_else (p_batteryLevel (payload message)) 100;
     direction := p_direction (payload message) |}.

(** The acknowledgement [handleCrossingRequest] ends with. *)
Definition acknowledge (message : Message) (a : Agent) : Agent :=
  emit [Send (sendMessage (sender message) info
                (crossing_request_ack
                   match get (p_direction (payload message)) (queuesByDirection a) with
                   | Some queue => length queue
                   | None => 0%nat
                   end
                   (estimateWaitTime (p_direction (payload message)) a))
                default_priority default_ttl)] a.

Definition crossing_request (message : Message) (d : string) : Prop :=
  p_type (payload message) = Some "crossing-request"%string
  /\ p_direction (payload message) = Some d.

(** The number of calls of [negotiateIntersection] among some effects. *)
Definition negotiations (es : list Effect) : nat :=
  length (List.filter (fun e => match e with Negotiate _ => true | _ => false end) es).

(** ** Priorities and penalties *)



(** What one auction does to the tracker. *)
Definition round (adjustments : list (string * spec_float))
    (tracker : gmap string spec_float) : gmap string spec_float :=
  decay_all (apply_adjustments adjustments tracker).

(** The agent after the fairness updates of a sequence of auction results,
    oldest first. *)
Definition settled (results : list Decision) (a : Agent) : Agent :=
  fold_left (fun a result => fst (updateFairnessScores result a)) results a.

(** The result lists fairness adjustments, and none for the company. *)
Definition spares (company : string) (result : Decision) : Prop :=
  exists adjustments,
    fairnessAdjustments (fields result) = Some adjustments
    /\ company ∉ map fst adjustments.

(** Nine times the least positive binary64 number, which the decay leaves
    as it is. *)
Definition floor_penalty : spec_float := S754_finite false 9 (-1074).

End IntersectionVocabulary.

Module Traffic.

Definition crossing (id from vehicle dir : string) (sent : Z) : Message :=
  {| msg_id := id; timestamp := sent; sender := from;
     recipient := "intersection-vanness-market"; message_type := info;
     priority := 5;
     payload := {| p_type := Some "crossing-request"%string; p_vehicleId := vehicle;
                   p_company := "waymo"; p_waitTime := None; p_passengers := Some 2%Q;
                   p_batteryLevel := Some 80%Q; p_direction := Some dir;
                   p_duration := None |};
     ttl := 60 |}.

Definition preemption (id : string) (sent : Z) : Message :=
  {| msg_id := id; timestamp := sent; sender := "master-orchestrator";
     recipient := "intersection-vanness-market"; message_type := emergency;
     priority := 1000;
     payload := {| p_type := Some "emergency-preemption"%string; p_vehicleId := "";
                   p_company := ""; p_waitTime := None; p_passengers := None;
                   p_batteryLevel := None; p_direction := None;
                   p_duration := Some 120%Q |};
     ttl := 60 |}.

Definition key : option string := Some "nvapi-key"%string.

(** The reasoning service cannot be reached. *)
Definition unreachable (_ : Intersection.IntersectionData) : Nvidia.FetchOutcome :=
  Nvidia.NetworkError.

(** An intersection with one vehicle already waiting in the north queue. *)
Definition one_waiting : Intersection.Agent :=
  fst (Intersection.handleCrossingRequest key unreachable 1000
         (crossing "m1" "vehicle-v1" "v1" "north" 1000)
         (Intersection.new "vanness-market")).

Definition m2 : Message := crossing "m2" "vehicle-v2" "v2" "south" 2000.

Definition m3 : Message := crossing "m3" "vehicle-v3" "v3" "east" 4000.

Definition m4 : Message := crossing "m4" "vehicle-v4" "v4" "west" 5000.

Definition sideways : Message := crossing "m5" "vehicle-v5" "v5" "up" 2000.

Definition world (a : Intersection.Agent) : BaseAgent.World Intersection.Agent :=
  {| BaseAgent.agent := a; BaseAgent.isActive := true;
     BaseAgent.coordination_messages := {[ "m2"%string := pending ]};
     BaseAgent.processed := [] |}.

(** After the pre-emption of [one_waiting] at 3000 ms. *)
Definition preempted : Intersection.Agent :=
  fst (Intersection.handleEmergencyPreemption (preemption "e1" 3000) one_waiting).

End Traffic.

(** ** Histories, hand-overs and fleets *)

Section MoreVocabulary.
Import Intersection Nvidia.

(** The agent after a history of deliveries, each at its clock reading. *)
Definition deliver_all (key : option string) (fetch : IntersectionData -> FetchOutcome)
    (history : list (Z * Message)) (a : Agent) : Agent :=
  fold_left (fun a '(now, message) => fst (processMessage key fetch now message a))
            history a.

(** The requests of a queue whose vehicle the crossing order does not list. *)
Definition unlisted (order : list string) (queue : list CrossingRequest)
    : list CrossingRequest :=
  List.filter (fun r => negb (existsb (String.eqb (vehicleId r)) order)) queue.

(** A crossing permission sent to a vehicle. *)
Definition is_permission (e : Effect) : bool :=
  match e with
  | Send m =>
      match o_payload m with
      | crossing_permission _ _ _ => true
      | _ => false
      end
  | _ => false
  end.

(** [setupMessageHandlers] of the intersection agent. *)
Definition intersection_handlers (key : option string)
    (fetch : IntersectionData -> Nvidia.FetchOutcome) (now : Z)
    : list (string * (Message -> Agent -> Agent * Completion unit)) :=
  [ ("crossing-request"%string, handleCrossingRequest key fetch now);
    ("emergency-preemption"%string, handleEmergencyPreemption);
    ("status-query"%string, handleStatusQuery now) ].

End MoreVocabulary.

Section FleetVocabulary.
Import Fleet.

(** Idle and carrying nobody: what rebalancing may move. *)
Definition movable (vehicle : VehicleInfo) : bool :=
  bool_decide (status vehicle = idle) && (passengerCount vehicle =? 0).

(** The target district is one the fleet avoids. *)
Definition avoided (a : Agent) (targetDistrict : string) : bool :=
  match avoidDistricts (fleetConfig a) with
  | Some districts => existsb (String.eqb targetDistrict) districts
  | None => false
  end.

End FleetVocabulary.

(** A non-empty list of scores that all equal [s]. *)
Definition level (s : Q) (scores : list Q) : Prop :=
  scores <> [] /\ Forall (fun score => (score == s)%Q) scores.

Module Samples.

Definition both_times : gmap string Q :=
  list_to_map [("v1", 0%Q); ("v2", 5%Q)]%string.

(** The reasoning service names [v1], then [v2]. *)
Definition both_cross : Nvidia.AuctionResult :=
  {| Nvidia.crossingOrder := Some ["v1"; "v2"]%string;
     Nvidia.waitTimes := Some both_times;
     Nvidia.fairnessAdjustments := Some [("waymo"%string, Number.of_Z 1)] |}.

(** A result that lets [v1] cross and says nothing else. *)
Definition north_only : Nvidia.Decision :=
  Nvidia.parsed_json
    (Nvidia.json_object
       {| Nvidia.crossingOrder := Some ["v1"%string]; Nvidia.waitTimes := None;
          Nvidia.fairnessAdjustments := None |}).

Definition answers (_ : Intersection.IntersectionData) : Nvidia.FetchOutcome :=
  Nvidia.Response 200 (Nvidia.Content (Some (Nvidia.json_object both_cross))).

(** [v1] waits in the north queue and [v2] in the south queue. *)
Definition two_waiting : Intersection.Agent :=
  fst (Intersection.handleCrossingRequest Traffic.key Traffic.unreachable 2000
         Traffic.m2 Traffic.one_waiting).

(** A second vehicle arrives from the north behind [v1]. *)
Definition second_north : Message :=
  Traffic.crossing "m7" "vehicle-v7" "v7" "north" 3000.

Definition north_queue : list Intersection.CrossingRequest :=
  match Intersection.get (Some "north"%string)
          (Intersection.queuesByDirection Traffic.one_waiting) with
  | Some queue => queue
  | None => []
  end.

(** A crossing request of a vehicle that reports an empty battery. *)
Definition flat : Message :=
  {| msg_id := "m6"; timestamp := 7000; sender := "vehicle-v6";
     recipient := "intersection-vanness-market"; message_type := info;
     priority := 5;
     payload := {| p_type := Some "crossing-request"%string; p_vehicleId := "v6";
                   p_company := "zoox"; p_waitTime := Some 30%Q;
                   p_passengers := Some 1%Q; p_batteryLevel := Some 0%Q;
                   p_direction := Some "east"%string; p_duration := None |};
     ttl := 60 |}.



(** The proposal of a consensus round as a district agent receives it. *)
Definition consensus_proposal : Message :=
  {| msg_id := "p1"; timestamp := 1000; sender := "master-orchestrator";
     recipient := "d1"; message_type := proposal; priority := 10;
     payload := {| p_type := None; p_vehicleId := ""; p_company := "";
                   p_waitTime := None; p_passengers := None; p_batteryLevel := None;
                   p_direction := None; p_duration := None |};
     ttl := 60 |}.

Definition zoox : Fleet.FleetConfig :=
  {| Fleet.company := "zoox"; Fleet.fleetSize := 200; Fleet.privacyLevel := Fleet.standard;
     Fleet.avoidDistricts := Some ["tenderloin"%string] |}.

(** A coordinator whose standing has dropped to twenty. *)
Definition sidelined : Fleet.Agent :=
  {| Fleet.fleetConfig := zoox; Fleet.activeVehicles := []; Fleet.priorityScore := 20;
     Fleet.recentCoordinations := 0; Fleet.outbox := [] |}.

Definition modest : Fleet.CoordinationProposal :=
  {| Fleet.sender := "master-orchestrator"; Fleet.proposalId := "p7";
     Fleet.proposal :=
       {| Fleet.requiresRouteSharing := true; Fleet.requiresPassengerInfo := false;
          Fleet.requiresFullRoute := false; Fleet.expectedBenefit := Some 3%Q;
          Fleet.affectedVehicles := Some 0; Fleet.priority := Some 5;
          Fleet.requiredVehicles := None; Fleet.district := "soma" |} |}.

(** An auction result that adjusts nobody. *)
Definition quiet : Nvidia.Decision :=
  Nvidia.parsed_json
    (Nvidia.json_object
       {| Nvidia.crossingOrder := Some []; Nvidia.waitTimes := Some ∅;
          Nvidia.fairnessAdjustments := Some [] |}).

(** An auction result that adds 3 to the penalty of one company. *)
Definition charges_cruise : Nvidia.Decision :=
  Nvidia.parsed_json
    (Nvidia.json_object
       {| Nvidia.crossingOrder := Some []; Nvidia.waitTimes := Some ∅;
          Nvidia.fairnessAdjustments := Some [("cruise"%string, Number.of_Z 3)] |}).

(** Intersections whose tracker holds one penalty. *)
Definition owes_three : Intersection.Agent :=
  Intersection.with_fairness {[ "waymo"%string := Number.of_Z 3 ]}
    (Intersection.new "vanness-market").

Definition owes_twenty : Intersection.Agent :=
  Intersection.with_fairness {[ "waymo"%string := Number.of_Z 20 ]}
    (Intersection.new "vanness-market").

Definition even_rows : list (string * Q) :=
  [("waymo", 50%Q); ("zoox", 50%Q); ("waymo", 50%Q); ("cruise", 50%Q)]%string.

End Samples.

(** * Consensus: quorum and majority *)

Section ConsensusFacts.
Import Consensus.

(** The two constants are the doubles nearest to 0.7 and 0.51. *)
Lemma literals_rounded :
  Number.literal 7 10 = Number.lit_0_7 /\ Number.literal 51 100 = Number.lit_0_51.
Proof. split; vm_compute; reflexivity. Qed.

Lemma agree_upto_spec bound factor num den (count total : nat) :
  agree_upto bound factor num den = true ->
  (count <= bound)%nat -> (total <= bound)%nat ->
  Number.reaches (Z.of_nat count) (Z.of_nat total) factor
  = (Number.exact_ceil (Z.of_nat total) num den <=? Z.of_nat count).
Proof.
  unfold agree_upto. intros H Hc Ht.
  rewrite forallb_forall in H.
  specialize (H total). rewrite forallb_forall in H.
  apply Bool.eqb_prop, H; apply in_seq; lia.
Qed.

Lemma reaches_0_51 (count total : nat) :
  (count <= 100)%nat -> (total <= 100)%nat ->
  Number.reaches (Z.of_nat count) (Z.of_nat total) Number.lit_0_51
  = (Number.exact_ceil (Z.of_nat total) 51 100 <=? Z.of_nat count).
Proof. apply agree_upto_spec. vm_compute. reflexivity. Qed.

Lemma reaches_0_7 (count total : nat) :
  (count <= 100)%nat -> (total <= 100)%nat ->
  Number.reaches (Z.of_nat count) (Z.of_nat total) Number.lit_0_7
  = (Number.exact_ceil (Z.of_nat total) 7 10 <=? Z.of_nat count).
Proof. apply agree_upto_spec. vm_compute. reflexivity. Qed.

Lemma exact_ceil_le (n a num den : Z) :
  0 < den -> (Number.exact_ceil n num den <= a <-> n * num <= den * a).
Proof.
  intros Hden. unfold Number.exact_ceil.
  pose proof (Z.div_mod (- (n * num)) den ltac:(lia)).
  pose proof (Z.mod_pos_bound (- (n * num)) den ltac:(lia)).
  nia.
Qed.

Lemma approvals_le_size (responses : gmap string bool) :
  (approvals responses <= size responses)%nat.
Proof.
  unfold approvals. rewrite <- length_map_to_list.
  etransitivity; [apply length_filter|]. by rewrite length_map.
Qed.

(** The loop ends once the clock has passed the timeout. *)
Lemma wait_returns participants startTime timeoutMs polls responses :
  Exists (timed_out startTime timeoutMs) polls ->
  is_Some (wait participants startTime timeoutMs polls responses).
Proof.
  intros H. revert responses.
  induction polls as [|p rest IH]; intros responses.
  - inversion H.
  - simpl. destruct (clock p - startTime <? timeoutMs) eqn:E; [|eauto].
    destruct (quorum participants _); [eauto|].
    apply IH. inversion H as [? ? Hp|]; subst; [|assumption].
    unfold timed_out in Hp. lia.
Qed.

(** It ends for one of two reasons only. *)
Lemma wait_exit participants startTime timeoutMs polls responses r :
  wait participants startTime timeoutMs polls responses = Some r ->
  quorum participants r = true \/ Exists (timed_out startTime timeoutMs) polls.
Proof.
  revert responses.
  induction polls as [|p rest IH]; intros responses; simpl; [discriminate|].
  destruct (clock p - startTime <? timeoutMs) eqn:E.
  - set (rs := match data p with Some rows => _ | None => _ end).
    destruct (quorum participants rs) eqn:Q.
    + intros H. inversion H; subst. by left.
    + intros H. destruct (IH _ H) as [|]; [by left | right; by constructor 2].
  - intros _. right. constructor 1. unfold timed_out. lia.
Qed.

Lemma gatherConsensus_inv participants timeoutMs startTime polls r :
  snd (gatherConsensus participants timeoutMs startTime polls) = Some r ->
  wait participants startTime timeoutMs polls ∅ = Some (responses r)
  /\ approved r = majority (responses r).
Proof.
  unfold gatherConsensus; simpl.
  destruct (wait _ _ _ _ _) as [rs|]; [|discriminate].
  intros H. inversion H; subst. auto.
Qed.

Lemma wait_silent participants startTime timeoutMs polls :
  Forall silent polls -> Exists (timed_out startTime timeoutMs) polls ->
  wait participants startTime timeoutMs polls ∅ = Some ∅.
Proof.
  induction polls as [|p rest IH]; intros Hs Ht; [inversion Ht|].
  inversion Hs as [|? ? Hp Hrest]; subst. simpl.
  destruct (clock p - startTime <? timeoutMs) eqn:E; [|reflexivity].
  assert (Hrs : match data p with
                | Some rows => record rows ∅
                | None => (∅ : gmap string bool)
                end = ∅).
  { destruct Hp as [-> | ->]; reflexivity. }
  rewrite Hrs. destruct (quorum participants ∅); [reflexivity|].
  apply IH; [assumption|].
  inversion Ht as [? ? Hnow|]; subst; [|assumption].
  unfold timed_out in Hnow. lia.
Qed.

End ConsensusFacts.

(** C5, as the code has it.  With ten participants the quorum count is seven.
    Once a poll finds the clock at or past the timeout the round returns a
    result, which carries no separate status.  With six responses the quorum
    is not reached and the result is [approved] exactly when at least four
    of the six accepted; with seven responses the quorum is reached and the
    result is [approved] exactly when at least four of the seven accepted.
    A round that returns with six responses ended because the clock passed
    the timeout. *)
Theorem C5_ten_participants (participants : list string) timeoutMs startTime polls :
  length participants = 10%nat ->
  (Exists (timed_out startTime timeoutMs) polls ->
   exists r,
     snd (Consensus.gatherConsensus participants timeoutMs startTime polls) = Some r
     /\ (size (Consensus.responses r) = 6%nat ->
         Consensus.quorum participants (Consensus.responses r) = false
         /\ Consensus.approved r
            = (4 <=? Consensus.approvals (Consensus.responses r))%nat)
     /\ (size (Consensus.responses r) = 7%nat ->
         Consensus.quorum participants (Consensus.responses r) = true
         /\ Consensus.approved r
            = (4 <=? Consensus.approvals (Consensus.responses r))%nat))
  /\ (forall r,
       snd (Consensus.gatherConsensus participants timeoutMs startTime polls) = Some r ->
       size (Consensus.responses r) = 6%nat ->
       Exists (timed_out startTime timeoutMs) polls).
Proof.
  intros Hlen.
  assert (Hq : forall r n, size (Consensus.responses r) = n -> (n <= 100)%nat ->
             Consensus.quorum participants (Consensus.responses r) = (7 <=? n)%nat).
  { intros r n Hn Hb. unfold Consensus.quorum. rewrite Hlen, Hn.
    rewrite reaches_0_7 by lia. unfold Number.exact_ceil.
    change (- (- (Z.of_nat 10 * 7) / 10)) with 7.
    destruct (Nat.leb_spec 7 n); lia. }
  assert (Hm : forall r n,
             Consensus.approved r = Consensus.majority (Consensus.responses r) ->
             size (Consensus.responses r) = n -> (n = 6 \/ n = 7)%nat ->
             Consensus.approved r
             = (4 <=? Consensus.approvals (Consensus.responses r))%nat).
  { intros r n Happ Hn Hb.
    pose proof (approvals_le_size (Consensus.responses r)) as Hle.
    rewrite Happ. unfold Consensus.majority. rewrite Hn.
    rewrite reaches_0_51 by lia. unfold Number.exact_ceil.
    destruct Hb as [-> | ->];
      [change (- (- (Z.of_nat 6 * 51) / 100)) with 4
      |change (- (- (Z.of_nat 7 * 51) / 100)) with 4];
      destruct (Nat.leb_spec 4 (Consensus.approvals (Consensus.responses r))); lia. }
  split.
  - intros Ht.
    destruct (wait_returns participants startTime timeoutMs polls ∅ Ht) as [rs Hwait].
    set (r := {| Consensus.approved := Consensus.majority rs;
                 Consensus.responses := rs |}).
    exists r.
    split; [unfold Consensus.gatherConsensus; cbn [snd]; by rewrite Hwait|].
    split; intros Hn.
    + split; [rewrite (Hq r _ Hn) by lia; reflexivity|].
      apply (Hm r _ eq_refl Hn). lia.
    + split; [rewrite (Hq r _ Hn) by lia; reflexivity|].
      apply (Hm r _ eq_refl Hn). lia.
  - intros r Hrun Hn.
    destruct (gatherConsensus_inv _ _ _ _ _ Hrun) as [Hwait _].
    destruct (wait_exit _ _ _ _ _ _ Hwait) as [Hq'|]; [|assumption].
    rewrite (Hq _ _ Hn) in Hq' by lia. discriminate Hq'.
Qed.

(** C5 at the run of the specification's example: six of ten respond
    (four accept, two reject) and the timeout passes. *)
Lemma C5_witness :
  length Scenario.ten = 10%nat
  /\ Exists (timed_out 1000 5000) Scenario.six_then_timeout
  /\ exists r,
       snd (Consensus.gatherConsensus Scenario.ten 5000 1000 Scenario.six_then_timeout)
       = Some r
       /\ (size (Consensus.responses r) = 6%nat ->
           Consensus.quorum Scenario.ten (Consensus.responses r) = false
           /\ Consensus.approved r
              = (4 <=? Consensus.approvals (Consensus.responses r))%nat)
       /\ (size (Consensus.responses r) = 7%nat ->
           Consensus.quorum Scenario.ten (Consensus.responses r) = true
           /\ Consensus.approved r
              = (4 <=? Consensus.approvals (Consensus.responses r))%nat).
Proof.
  assert (Ht : Exists (timed_out 1000 5000) Scenario.six_then_timeout).
  { do 3 constructor 2. constructor 1. unfold timed_out; simpl. lia. }
  split; [reflexivity|]. split; [exact Ht|].
  exact (proj1 (C5_ten_participants Scenario.ten 5000 1000 Scenario.six_then_timeout
                  eq_refl) Ht).
Defined.

(** C5 as stated fails: with ten participants and only six responses (four
    accepting) by the timeout, quorum is not reached, yet the round returns
    [approved = true]; there is no Timeout outcome. *)
Lemma C5_counterexample :
  snd (Consensus.gatherConsensus Scenario.ten 5000 1000 Scenario.six_then_timeout)
  = Some {| Consensus.approved := true; Consensus.responses := Scenario.six_responses |}
  /\ size Scenario.six_responses = 6%nat
  /\ Consensus.quorum Scenario.ten Scenario.six_responses = false.
Proof. repeat split; vm_compute; reflexivity. Qed.

(** C9: when no poll brings a vote and the clock passes the timeout, the
    round returns [approved = true] with an empty map of responses. *)
Theorem C9_silence_is_approval (participants : list string) timeoutMs startTime polls :
  Forall silent polls ->
  Exists (timed_out startTime timeoutMs) polls ->
  snd (Consensus.gatherConsensus participants timeoutMs startTime polls)
  = Some {| Consensus.approved := true; Consensus.responses := ∅ |}.
Proof.
  intros Hs Ht. unfold Consensus.gatherConsensus; simpl.
  rewrite (wait_silent _ _ _ _ Hs Ht). reflexivity.
Qed.

Lemma C9_witness :
  Forall silent Scenario.nobody_answers
  /\ Exists (timed_out 1000 5000) Scenario.nobody_answers
  /\ snd (Consensus.gatherConsensus Scenario.ten 5000 1000 Scenario.nobody_answers)
     = Some {| Consensus.approved := true; Consensus.responses := ∅ |}.
Proof.
  assert (Hs : Forall silent Scenario.nobody_answers).
  { constructor; [right; reflexivity|].
    constructor; [left; reflexivity|].
    constructor; [right; reflexivity|]. constructor. }
  assert (Ht : Exists (timed_out 1000 5000) Scenario.nobody_answers).
  { do 2 constructor 2. constructor 1. unfold timed_out; simpl. lia. }
  split; [exact Hs|]. split; [exact Ht|].
  exact (C9_silence_is_approval Scenario.ten 5000 1000 Scenario.nobody_answers Hs Ht).
Defined.

(** C6, as the code has it.  Once a poll finds the clock at or past the
    timeout the round returns, and its verdict depends on the responses
    received alone: [approved] holds exactly when the acceptances reach
    [Math.ceil(received * 0.51)], that is, for up to a hundred responses, when
    they are at least 51% of the responses received.  From one to fifty
    responses, and for every even number of responses up to a hundred, this
    is a strict majority of the responses received; for an odd number of
    responses from 51 to 99 it takes one acceptance more than a strict
    majority; with no response the round is approved. *)
Theorem C6_majority_of_received (participants : list string) timeoutMs startTime polls :
  Exists (timed_out startTime timeoutMs) polls ->
  exists r,
    snd (Consensus.gatherConsensus participants timeoutMs startTime polls) = Some r
    /\ let received := size (Consensus.responses r) in
       let accepted := Consensus.approvals (Consensus.responses r) in
       Consensus.approved r
       = Number.reaches (Z.of_nat accepted) (Z.of_nat received) Number.lit_0_51
       /\ ((received <= 100)%nat ->
           (Consensus.approved r = true <-> (51 * received <= 100 * accepted)%nat))
       /\ ((0 < received <= 100)%nat ->
           (received <= 50)%nat \/ Nat.even received = true ->
           (Consensus.approved r = true <-> (received < 2 * accepted)%nat))
       /\ ((51 <= received <= 99)%nat -> Nat.odd received = true ->
           (Consensus.approved r = true <-> (received + 1 < 2 * accepted)%nat))
       /\ (received = 0%nat -> Consensus.approved r = true).
Proof.
  intros Ht.
  destruct (wait_returns participants startTime timeoutMs polls ∅ Ht) as [rs Hwait].
  exists {| Consensus.approved := Consensus.majority rs; Consensus.responses := rs |}.
  split; [unfold Consensus.gatherConsensus; cbn [snd]; by rewrite Hwait|].
  cbv zeta. cbn [Consensus.approved Consensus.responses].
  set (received := size rs). set (accepted := Consensus.approvals rs).
  pose proof (approvals_le_size rs) as Hle. fold received accepted in Hle.
  assert (Hex : (received <= 100)%nat ->
          (Consensus.majority rs = true <-> (51 * received <= 100 * accepted)%nat)).
  { intros Hb. unfold Consensus.majority. fold received accepted.
    rewrite reaches_0_51 by lia. rewrite Z.leb_le, exact_ceil_le by lia. lia. }
  split; [reflexivity|]. split; [exact Hex|]. split; [|split].
  - intros Hb [Hs|He]; rewrite Hex by lia; [lia|].
    apply Nat.even_spec in He as [k Hk]. lia.
  - intros Hb Ho. rewrite Hex by lia.
    apply Nat.odd_spec in Ho as [k Hk]. lia.
  - intros H0. apply Hex; lia.
Qed.

Lemma C6_witness :
  Exists (timed_out 1000 5000) Scenario.six_then_timeout
  /\ exists r,
       snd (Consensus.gatherConsensus Scenario.ten 5000 1000 Scenario.six_then_timeout)
       = Some r
       /\ let received := size (Consensus.responses r) in
          let accepted := Consensus.approvals (Consensus.responses r) in
          Consensus.approved r
          = Number.reaches (Z.of_nat accepted) (Z.of_nat received) Number.lit_0_51
          /\ ((received <= 100)%nat ->
              (Consensus.approved r = true <-> (51 * received <= 100 * accepted)%nat))
          /\ ((0 < received <= 100)%nat ->
              (received <= 50)%nat \/ Nat.even received = true ->
              (Consensus.approved r = true <-> (received < 2 * accepted)%nat))
          /\ ((51 <= received <= 99)%nat -> Nat.odd received = true ->
              (Consensus.approved r = true <-> (received + 1 < 2 * accepted)%nat))
          /\ (received = 0%nat -> Consensus.approved r = true).
Proof.
  assert (Ht : Exists (timed_out 1000 5000) Scenario.six_then_timeout).
  { do 3 constructor 2. constructor 1. unfold timed_out; simpl. lia. }
  split; [exact Ht|].
  exact (C6_majority_of_received Scenario.ten 5000 1000 Scenario.six_then_timeout Ht).
Defined.

(** C6 as stated fails: of fifty-one responses received twenty-six accept,
    which is more than half, and the round is not approved. *)
Lemma C6_counterexample :
  snd (Consensus.gatherConsensus (map Scenario.voter (seq 0 51)) 5000 1000
         [ {| Consensus.clock := 1000; Consensus.data := Some Scenario.fifty_one |} ])
  = Some {| Consensus.approved := false;
            Consensus.responses := Scenario.fifty_one_responses |}
  /\ size Scenario.fifty_one_responses = 51%nat
  /\ Consensus.approvals Scenario.fifty_one_responses = 26%nat.
Proof. repeat split; vm_compute; reflexivity. Qed.

(** * Delivery of incoming messages *)

Section DeliveryFacts.
Context {Agent : Type}.
Variable processMessage : Z -> Message -> Agent -> Agent * Completion unit.
Import BaseAgent.

Lemma handleIncomingMessage_expired now message (w : World Agent) :
  ttl message * 1000 < now - timestamp message ->
  handleIncomingMessage processMessage now message w
  = (updateMessageStatus (msg_id message) expired w, Returned tt).
Proof.
  intros H. unfold handleIncomingMessage.
  destruct (Z.gtb_spec (now - timestamp message) (ttl message * 1000));
    [reflexivity|lia].
Qed.

Lemma handleIncomingMessage_fresh now message (w : World Agent) :
  now - timestamp message <= ttl message * 1000 ->
  handleIncomingMessage processMessage now message w
  = let '(agent', completion) := processMessage now message (agent w) in
    let w' := {| agent := agent'; isActive := isActive w;
                 coordination_messages := coordination_messages w;
                 processed := processed w ++ [message] |} in
    match completion with
    | Returned _ => (updateMessageStatus (msg_id message) delivered w', Returned tt)
    | Thrown e => (w', Thrown e)
    end.
Proof.
  intros H. unfold handleIncomingMessage.
  destruct (Z.gtb_spec (now - timestamp message) (ttl message * 1000));
    [lia|reflexivity].
Qed.

End DeliveryFacts.

(** C3, as the code has it.  For a pending message: when its age exceeds
    [ttl] seconds it is marked expired, [processMessage] is not invoked and
    the agent is unchanged; otherwise [processMessage] is invoked once, and
    the message is marked delivered when [processMessage] returns. *)
Theorem C3_ttl_gate {Agent : Type}
    (processMessage : Z -> Message -> Agent -> Agent * Completion unit)
    (now : Z) (message : Message) (w : BaseAgent.World Agent) :
  BaseAgent.coordination_messages w !! msg_id message = Some pending ->
  let run := BaseAgent.handleIncomingMessage processMessage now message w in
  (ttl message * 1000 < now - timestamp message ->
     BaseAgent.coordination_messages (fst run) !! msg_id message = Some expired
     /\ BaseAgent.processed (fst run) = BaseAgent.processed w
     /\ BaseAgent.agent (fst run) = BaseAgent.agent w
     /\ snd run = Returned tt)
  /\ (now - timestamp message <= ttl message * 1000 ->
     BaseAgent.processed (fst run) = BaseAgent.processed w ++ [message]
     /\ BaseAgent.agent (fst run) = fst (processMessage now message (BaseAgent.agent w))
     /\ (snd (processMessage now message (BaseAgent.agent w)) = Returned tt ->
         BaseAgent.coordination_messages (fst run) !! msg_id message = Some delivered
         /\ snd run = Returned tt)).
Proof.
  intros Hrow run. split; intros Hage; subst run.
  - rewrite handleIncomingMessage_expired by assumption. simpl.
    rewrite lookup_alter_eq, Hrow. auto.
  - rewrite handleIncomingMessage_fresh by assumption.
    destruct (processMessage now message (BaseAgent.agent w)) as [agent' [[]|e]]; simpl.
    + split; [reflexivity|]. split; [reflexivity|]. intros _.
      rewrite lookup_alter_eq, Hrow. auto.
    + split; [reflexivity|]. split; [reflexivity|]. discriminate.
Qed.

(** C3 on an expired message: sent at 2000 ms with sixty seconds to live and
    handled at 70000 ms. *)
Lemma C3_witness :
  let w := Traffic.world (Intersection.new "vanness-market") in
  let run := BaseAgent.handleIncomingMessage
               (Intersection.processMessage Traffic.key Traffic.unreachable)
               70000 Traffic.m2 w in
  BaseAgent.coordination_messages w !! msg_id Traffic.m2 = Some pending
  /\ ttl Traffic.m2 * 1000 < 70000 - timestamp Traffic.m2
  /\ BaseAgent.coordination_messages (fst run) !! msg_id Traffic.m2 = Some expired
  /\ BaseAgent.processed (fst run) = []
  /\ BaseAgent.agent (fst run) = Intersection.new "vanness-market"
  /\ snd run = Returned tt.
Proof.
  intros w run.
  assert (Hrow : BaseAgent.coordination_messages w !! msg_id Traffic.m2 = Some pending)
    by (vm_compute; reflexivity).
  assert (Hage : ttl Traffic.m2 * 1000 < 70000 - timestamp Traffic.m2)
    by (vm_compute; reflexivity).
  split; [exact Hrow|]. split; [exact Hage|].
  exact (proj1 (C3_ttl_gate
                  (Intersection.processMessage Traffic.key Traffic.unreachable)
                  70000 Traffic.m2 w Hrow) Hage).
Defined.

(** C3 as stated fails: a message within its time to live is handed to
    [processMessage], which throws because no API key is configured, and the
    message stays pending. *)
Lemma C3_counterexample :
  let run := BaseAgent.handleIncomingMessage
               (Intersection.processMessage None Traffic.unreachable)
               2500 Traffic.m2 (Traffic.world Traffic.one_waiting) in
  2500 - timestamp Traffic.m2 <= ttl Traffic.m2 * 1000
  /\ BaseAgent.processed (fst run) = [Traffic.m2]
  /\ BaseAgent.coordination_messages (fst run) !! "m2"%string = Some pending.
Proof. repeat split; vm_compute; try reflexivity. discriminate. Qed.

(** C2, as the code has it.  For a message within its time to live: an
    exception of the handler is not caught, it leaves [handleIncomingMessage]
    and the status of the message is not updated; the message is marked
    delivered when the handler returns. *)
Theorem C2_handler_exception_propagates {Agent : Type}
    (processMessage : Z -> Message -> Agent -> Agent * Completion unit)
    (now : Z) (message : Message) (w : BaseAgent.World Agent) :
  now - timestamp message <= ttl message * 1000 ->
  let run := BaseAgent.handleIncomingMessage processMessage now message w in
  (forall e, snd (processMessage now message (BaseAgent.agent w)) = Thrown e ->
     snd run = Thrown e
     /\ BaseAgent.coordination_messages (fst run) = BaseAgent.coordination_messages w)
  /\ (snd (processMessage now message (BaseAgent.agent w)) = Returned tt ->
     snd run = Returned tt
     /\ BaseAgent.coordination_messages (fst run)
        = alter (fun _ => delivered) (msg_id message) (BaseAgent.coordination_messages w)).
Proof.
  intros Hage run. subst run.
  rewrite handleIncomingMessage_fresh by assumption.
  destruct (processMessage now message (BaseAgent.agent w)) as [agent' [[]|e]]; simpl.
  - split; [discriminate | auto].
  - split; [intros e' [= <-]; auto | discriminate].
Qed.

(** C2 on a crossing request that completes: the first vehicle at an empty
    intersection. *)
Lemma C2_witness :
  let w := Traffic.world (Intersection.new "vanness-market") in
  let run := BaseAgent.handleIncomingMessage
               (Intersection.processMessage Traffic.key Traffic.unreachable)
               2500 Traffic.m2 w in
  2500 - timestamp Traffic.m2 <= ttl Traffic.m2 * 1000
  /\ snd run = Returned tt
  /\ BaseAgent.coordination_messages (fst run)
     = alter (fun _ => delivered) (msg_id Traffic.m2) (BaseAgent.coordination_messages w).
Proof.
  intros w run.
  assert (Hage : 2500 - timestamp Traffic.m2 <= ttl Traffic.m2 * 1000)
    by (vm_compute; discriminate).
  split; [exact Hage|].
  refine (proj2 (C2_handler_exception_propagates
                   (Intersection.processMessage Traffic.key Traffic.unreachable)
                   2500 Traffic.m2 w Hage) _).
  vm_compute; reflexivity.
Defined.

(** C2 as stated fails: a second vehicle arrives, the auction it triggers
    throws because the reasoning service is unreachable, the exception leaves
    [handleIncomingMessage] and the message stays pending. *)
Lemma C2_counterexample :
  let run := BaseAgent.handleIncomingMessage
               (Intersection.processMessage Traffic.key Traffic.unreachable)
               2500 Traffic.m2 (Traffic.world Traffic.one_waiting) in
  snd run = Thrown (TypeError "crossingOrder is not iterable")
  /\ BaseAgent.coordination_messages (fst run) !! "m2"%string = Some pending.
Proof. split; vm_compute; reflexivity. Qed.

(** * The intersection agent *)

Section IntersectionFacts.
Import Intersection Nvidia.

Lemma shouldNegotiate_eq a :
  shouldNegotiate a
  = (2 <=? activeDirections (queuesByDirection a))%nat
    && (size (currentNegotiations a) =? 0)%nat.
Proof. reflexivity. Qed.

Lemma get_unknown d qs : d ∉ map fst qs -> get (Some d) qs = None.
Proof.
  induction qs as [|[k q] rest IH]; simpl; intros H; [reflexivity|].
  apply not_elem_of_cons in H as [Hne Hrest].
  destruct (String.eqb_spec k d); [congruence | auto].
Qed.

Lemma update_keys d f qs : map fst (update d f qs) = map fst qs.
Proof.
  induction qs as [|[k q] rest IH]; simpl; [reflexivity|].
  destruct (String.eqb k d); simpl; congruence.
Qed.

Lemma take_vehicle_keys v qs r : map fst (snd (take_vehicle v qs r)) = map fst qs.
Proof.
  revert r. induction qs as [|[k q] rest IH]; intros r; simpl; [reflexivity|].
  destruct (splice_vehicle v q) as [found q'].
  specialize (IH match found with Some r0 => Some r0 | None => r end).
  destruct (take_vehicle v rest _) as [l rest']. simpl in *. congruence.
Qed.

Lemma cleared_keys (qs : list (string * list CrossingRequest)) :
  map (fun '(k, _) => (k, @nil CrossingRequest)) qs
  = map (fun k => (k, [])) (map fst qs).
Proof. induction qs as [|[k q] rest IH]; simpl; congruence. Qed.

Lemma handleEmergencyPreemption_eq message a :
  handleEmergencyPreemption message a
  = (emit [UpsertState (map (fun '(k, _) => (k, 0%nat)) (queuesByDirection a))
                       (elements (currentNegotiations a))
                       (Some true) (p_duration (payload message))]
       (with_queues (map (fun '(k, _) => (k, [])) (queuesByDirection a))
          (emit (map yield_to (concat (map snd (queuesByDirection a)))) a)),
     Returned tt).
Proof.
  unfold handleEmergencyPreemption, updateIntersectionState, bind, read, modify.
  simpl. unfold queue_lengths. simpl.
  rewrite map_map. do 3 f_equal. f_equal.
  apply map_ext. intros [k q]. reflexivity.
Qed.

Section Stable.
Variable R : Agent -> Agent -> Prop.
Hypothesis R_refl : forall a, R a a.
Hypothesis R_trans : forall a b c, R a b -> R b c -> R a c.
Hypothesis R_emit : forall es a, R a (emit es a).
Hypothesis R_queues : forall qs a, map fst qs = keys a -> R a (with_queues qs a).
Hypothesis R_negotiations : forall n a, R a (with_negotiations n a).
Hypothesis R_fairness : forall f a, R a (with_fairness f a).

Lemma stable_ret {A} (x : A) : stable R (ret x).
Proof. intros a. apply R_refl. Qed.

Lemma stable_throw {A} e : stable R (@throw A e).
Proof. intros a. apply R_refl. Qed.

Lemma stable_modify f : (forall a, R a (f a)) -> stable R (modify f).
Proof. intros H a. apply H. Qed.

Lemma stable_bind {A B} (m : M A) (k : A -> M B) :
  stable R m -> (forall x, stable R (k x)) -> stable R (bind m k).
Proof.
  intros Hm Hk a. unfold bind. specialize (Hm a).
  destruct (m a) as [a' [x|e]]; simpl in *; [|assumption].
  eapply R_trans; [exact Hm | apply Hk].
Qed.

Lemma stable_read {A} (k : Agent -> M A) :
  (forall a, R a (fst (k a a))) -> stable R (bind read k).
Proof. intros H a. apply H. Qed.

Lemma stable_finally {A} (m : M A) cleanup :
  stable R m -> (forall a, R a (cleanup a)) -> stable R (finally m cleanup).
Proof.
  intros Hm Hc a. unfold finally. specialize (Hm a).
  destruct (m a) as [a' r]; simpl in *. eauto.
Qed.

Lemma stable_send r t b p : stable R (send r t b p).
Proof. apply stable_modify. intros a. apply R_emit. Qed.

Lemma stable_modify_then {A} f (k : M A) a :
  R a (f a) -> stable R k -> R a (fst (bind (modify f) (fun _ => k) a)).
Proof. intros Hf Hk. unfold bind, modify. eapply R_trans; [exact Hf | apply Hk]. Qed.

Lemma stable_cross times order : stable R (cross times order).
Proof.
  induction order as [|v rest IH]; [apply stable_ret|].
  simpl. apply stable_read. intros a.
  pose proof (take_vehicle_keys v (queuesByDirection a) None) as Hk.
  destruct (take_vehicle v (queuesByDirection a) None) as [vehicleRequest qs].
  simpl in Hk.
  apply stable_modify_then; [apply R_queues; exact Hk|].
  apply stable_bind; [|intros _; exact IH].
  destruct vehicleRequest; [|apply stable_ret].
  destruct times; [apply stable_send | apply stable_throw].
Qed.

Lemma stable_executeCrossingOrder result : stable R (executeCrossingOrder result).
Proof.
  unfold executeCrossingOrder.
  destruct result as [msg|[| |o]]; simpl;
    try apply stable_throw.
  destruct (crossingOrder o); [apply stable_cross | apply stable_throw].
Qed.

Lemma stable_updateFairnessScores result : stable R (updateFairnessScores result).
Proof.
  intros a. unfold updateFairnessScores.
  destruct result as [msg|[| |o]]; simpl; try apply R_refl.
  destruct (fairnessAdjustments o); simpl; [apply R_fairness | apply R_refl].
Qed.

Variable NVIDIA_API_KEY : option string.
Variable fetch : IntersectionData -> FetchOutcome.

Lemma stable_makeDecision now context :
  stable R (makeDecision NVIDIA_API_KEY fetch now context).
Proof.
  unfold makeDecision. apply stable_read. intros a.
  apply stable_modify_then; [apply R_emit|].
  destruct (negotiateIntersection _ _); [apply stable_ret | apply stable_throw].
Qed.

Lemma refresh_all_keys now a : keys (refresh_all now a) = keys a.
Proof.
  unfold keys, refresh_all. simpl.
  induction (queuesByDirection a) as [|[k q] rest IH]; simpl; congruence.
Qed.

Lemma stable_runAuctionNegotiation now :
  stable R (runAuctionNegotiation NVIDIA_API_KEY fetch now).
Proof.
  unfold runAuctionNegotiation.
  apply stable_bind; [apply stable_modify; intros a; apply R_negotiations|intros _].
  apply stable_finally; [|intros a; apply R_negotiations].
  apply stable_bind.
  { apply stable_modify. intros a. unfold refresh_all. apply R_queues.
    apply (refresh_all_keys now a). }
  intros _. apply stable_read. intros a.
  apply stable_bind; [apply stable_makeDecision|intros result].
  apply stable_bind; [apply stable_executeCrossingOrder|intros _].
  apply stable_bind; [apply stable_updateFairnessScores|intros _].
  apply stable_modify. intros b. apply R_emit.
Qed.

Lemma stable_handleCrossingRequest now message :
  stable R (handleCrossingRequest NVIDIA_API_KEY fetch now message).
Proof.
  unfold handleCrossingRequest. apply stable_read. intros a.
  apply stable_bind.
  - simpl. destruct (p_direction (payload message)) as [d|]; [|apply stable_ret].
    destruct (get (Some d) (queuesByDirection a)); [|apply stable_ret].
    apply stable_bind.
    + apply stable_modify. intros b. apply R_queues. apply update_keys.
    + intros _. apply stable_read. intros b.
      destruct (shouldNegotiate b);
        [apply stable_runAuctionNegotiation | apply stable_ret].
  - intros _. apply stable_read. intros b. apply stable_send.
Qed.

Lemma stable_updateIntersectionState active duration :
  stable R (updateIntersectionState active duration).
Proof.
  unfold updateIntersectionState. apply stable_read. intros a.
  apply stable_modify. intros b. apply R_emit.
Qed.

Lemma stable_handleEmergencyPreemption message :
  stable R (handleEmergencyPreemption message).
Proof.
  intros a. rewrite handleEmergencyPreemption_eq. simpl.
  eapply R_trans; [apply R_emit|].
  eapply R_trans; [|apply R_emit].
  apply R_queues. unfold keys. simpl.
  induction (queuesByDirection a) as [|[k q] rest IH]; simpl; congruence.
Qed.

Lemma stable_settle result participants n :
  stable R (bind (executeCrossingOrder result) (fun _ =>
            bind (updateFairnessScores result) (fun _ =>
            modify (emit [LogEvent participants n])))).
Proof.
  apply stable_bind; [apply stable_executeCrossingOrder|intros _].
  apply stable_bind; [apply stable_updateFairnessScores|intros _].
  apply stable_modify. intros b. apply R_emit.
Qed.

Lemma stable_handleStatusQuery now message :
  stable R (handleStatusQuery now message).
Proof.
  unfold handleStatusQuery. apply stable_read. intros a. apply stable_send.
Qed.

Lemma stable_processMessage now message :
  stable R (processMessage NVIDIA_API_KEY fetch now message).
Proof.
  unfold processMessage.
  destruct (p_type (payload message)) as [t|]; [|apply stable_ret].
  destruct (String.eqb t "crossing-request");
    [apply stable_handleCrossingRequest|].
  destruct (String.eqb t "emergency-preemption");
    [apply stable_handleEmergencyPreemption|].
  destruct (String.eqb t "status-query");
    [apply stable_handleStatusQuery | apply stable_ret].
Qed.

End Stable.

(** The keys of the queue map never change. *)
Lemma processMessage_keys key fetch now message a :
  keys (fst (processMessage key fetch now message a)) = keys a.
Proof.
  apply (stable_processMessage (fun a b => keys b = keys a)); try reflexivity.
  - intros x y z H1 H2. congruence.
  - intros qs b H. exact H.
Qed.

Lemma grows_refl a : grows a a.
Proof. exists []. by rewrite app_nil_r. Qed.

Lemma grows_trans a b c : grows a b -> grows b c -> grows a c.
Proof. intros [e1 H1] [e2 H2]. exists (e1 ++ e2). by rewrite H2, H1, app_assoc. Qed.

Lemma grows_emit es a : grows a (emit es a).
Proof. by exists es. Qed.

Lemma processMessage_grows key fetch now message a :
  grows a (fst (processMessage key fetch now message a)).
Proof.
  apply (stable_processMessage grows).
  - apply grows_refl.
  - apply grows_trans.
  - apply grows_emit.
  - intros qs b _. exists []. simpl. by rewrite app_nil_r.
  - intros n b. exists []. simpl. by rewrite app_nil_r.
  - intros f b. exists []. simpl. by rewrite app_nil_r.
Qed.


Ltac pick_direction H :=
  apply list_elem_of_In in H; simpl in H;
  repeat (destruct H as [<- | H]); [..| contradiction].

Lemma two_directions (d1 d2 : string) (r1 r2 : CrossingRequest) :
  d1 ∈ directions -> d2 ∈ directions -> d1 <> d2 ->
  let q1 := update d1 (fun q => q ++ [r1]) initializeQueues in
  let q2 := update d2 (fun q => q ++ [r2]) q1 in
  get (Some d1) initializeQueues = Some []
  /\ activeDirections q1 = 1%nat
  /\ get (Some d2) q1 = Some []
  /\ activeDirections q2 = 2%nat.
Proof.
  intros H1 H2 Hne. pick_direction H1; pick_direction H2;
    solve [congruence | repeat split; reflexivity].
Qed.

(** C10: a crossing request whose direction is none of the eight queues
    is put into no queue and starts no auction, and still the sender gets
    one acknowledgement, with position 0 and estimated wait 0: the queues,
    the negotiations and the fairness tracker are as before, the handler
    returns, and the one thing the agent does is to send that
    acknowledgement. *)
Theorem C10_unknown_direction key fetch now message a :
  keys a = directions ->
  (forall d, p_direction (payload message) = Some d -> d ∉ directions) ->
  let run := handleCrossingRequest key fetch now message a in
  snd run = Returned tt
  /\ queuesByDirection (fst run) = queuesByDirection a
  /\ currentNegotiations (fst run) = currentNegotiations a
  /\ fairnessTracker (fst run) = fairnessTracker a
  /\ effects (fst run)
     = effects a
       ++ [Send {| o_recipient := sender message; o_message_type := info;
                   o_payload := crossing_request_ack 0 0;
                   o_priority := 5; o_ttl := 60 |}].
Proof.
  intros Hkeys Hdir run.
  assert (Hget : get (p_direction (payload message)) (queuesByDirection a) = None).
  { destruct (p_direction (payload message)) as [d|] eqn:E.
    - apply get_unknown. fold (keys a). rewrite Hkeys. auto.
    - destruct (queuesByDirection a); reflexivity. }
  assert (Hrun : run
                 = (emit [Send (sendMessage (sender message) info
                                  (crossing_request_ack 0 0)
                                  default_priority default_ttl)] a,
                    Returned tt)).
  { subst run.
    unfold handleCrossingRequest, bind, read, send, modify, estimateWaitTime, ret.
    simpl. rewrite Hget.
    destruct (p_direction (payload message)); simpl; rewrite ?Hget; reflexivity. }
  rewrite Hrun. repeat split; reflexivity.
Qed.


Lemma runAuctionNegotiation_eq key fetch now a :
  let a1 := refresh_all now (with_negotiations ({[now]} ∪ currentNegotiations a) a) in
  runAuctionNegotiation key fetch now a
  = let '(b, r) :=
      match negotiateIntersection key (fetch (intersectionData now a1)) with
      | Returned result =>
          settle result (concat (map snd (queuesByDirection a1))) (negotiating now a)
      | Thrown e => (negotiating now a, Thrown e)
      end in
    (with_negotiations (currentNegotiations b ∖ {[now]}) b, r).
Proof.
  unfold runAuctionNegotiation, makeDecision, finally, bind, modify, read,
    negotiating, settle, intersectionData, ret, throw. simpl.
  destruct (negotiateIntersection _ _); reflexivity.
Qed.

Lemma settle_grows result allRequests a : grows a (fst (settle result allRequests a)).
Proof.
  apply (stable_settle grows).
  - apply grows_refl.
  - apply grows_trans.
  - apply grows_emit.
  - intros qs b _. exists []. simpl. by rewrite app_nil_r.
  - intros f b. exists []. simpl. by rewrite app_nil_r.
Qed.

Lemma runAuctionNegotiation_negotiates key fetch now a :
  exists es data,
    effects (fst (runAuctionNegotiation key fetch now a)) = effects a ++ es
    /\ Negotiate data ∈ es.
Proof.
  rewrite runAuctionNegotiation_eq. simpl.
  set (a1 := refresh_all now _).
  destruct (negotiateIntersection _ _) as [result|e].
  - set (allRequests := concat _).
    destruct (settle_grows result allRequests (negotiating now a)) as [es Hes].
    destruct (settle result allRequests (negotiating now a)) as [b r]. simpl in *.
    exists (Negotiate (intersectionData now a1) :: es), (intersectionData now a1).
    split; [|apply list_elem_of_here].
    rewrite Hes. unfold negotiating. simpl. fold a1.
    rewrite <- app_assoc. reflexivity.
  - exists [Negotiate (intersectionData now a1)], (intersectionData now a1).
    split; [reflexivity | apply list_elem_of_here].
Qed.

(** C1, on the code: when the reasoning call fails, the auction does not
    fall back to any local rule.  If [negotiateIntersection] resolves to an
    error object, [executeCrossingOrder] throws a TypeError; if it throws,
    that exception goes on.  In both cases [runAuctionNegotiation] throws
    after the call, no vehicle has been removed from a queue and no
    permission has been sent. *)
Theorem C1_adapter_failure_throws key fetch now a :
  let a1 := refresh_all now (with_negotiations ({[now]} ∪ currentNegotiations a) a) in
  let outcome := negotiateIntersection key (fetch (intersectionData now a1)) in
  let stopped :=
    with_negotiations (({[now]} ∪ currentNegotiations a) ∖ {[now]}) (negotiating now a) in
  (forall error, outcome = Returned (error_object error) ->
     runAuctionNegotiation key fetch now a
     = (stopped, Thrown (TypeError "crossingOrder is not iterable")))
  /\ (forall e, outcome = Thrown e ->
     runAuctionNegotiation key fetch now a = (stopped, Thrown e)).
Proof.
  intros a1 outcome stopped. subst outcome.
  split; intros x H; rewrite runAuctionNegotiation_eq; simpl; fold a1; rewrite H;
    reflexivity.
Qed.


Lemma handleCrossingRequest_enqueue key fetch now message a d q :
  p_direction (payload message) = Some d ->
  get (Some d) (queuesByDirection a) = Some q ->
  let queued :=
    with_queues (update d (fun q => q ++ [arriving now message a]) (queuesByDirection a)) a in
  handleCrossingRequest key fetch now message a
  = if shouldNegotiate queued then
      match runAuctionNegotiation key fetch now queued with
      | (b, Returned _) => (acknowledge message b, Returned tt)
      | (b, Thrown e) => (b, Thrown e)
      end
    else (acknowledge message queued, Returned tt).
Proof.
  intros Hd Hq queued. subst queued.
  unfold arriving, acknowledge, handleCrossingRequest, bind, read, modify, send, ret.
  simpl. rewrite !Hd. simpl. rewrite Hq.
  destruct (shouldNegotiate _); [|reflexivity].
  destruct (runAuctionNegotiation key fetch now _) as [b [[]|e]]; reflexivity.
Qed.

Lemma processMessage_crossing key fetch now message :
  p_type (payload message) = Some "crossing-request"%string ->
  processMessage key fetch now message = handleCrossingRequest key fetch now message.
Proof. intros H. unfold processMessage. rewrite H. reflexivity. Qed.

(** C4, as the code has it.  An emergency pre-emption empties every queue
    and sends one yield instruction per queued request, then upserts the
    state; it keeps nothing else.  Auctions are not suspended: of two
    crossing requests that arrive afterwards from different directions, the
    second one calls the reasoning service. *)
Theorem C4_preemption_clears_but_auctions_resume key fetch a alert :
  let a0 := fst (handleEmergencyPreemption alert a) in
  (snd (handleEmergencyPreemption alert a) = Returned tt
   /\ queuesByDirection a0 = map (fun '(k, _) => (k, [])) (queuesByDirection a)
   /\ effects a0
      = effects a ++ map yield_to (concat (map snd (queuesByDirection a)))
        ++ [UpsertState (map (fun '(k, _) => (k, 0%nat)) (queuesByDirection a))
                        (elements (currentNegotiations a))
                        (Some true) (p_duration (payload alert))]
   /\ currentNegotiations a0 = currentNegotiations a
   /\ fairnessTracker a0 = fairnessTracker a)
  /\ (forall t1 t2 m1 m2 d1 d2,
       keys a = directions -> currentNegotiations a = ∅ ->
       crossing_request m1 d1 -> crossing_request m2 d2 ->
       d1 ∈ directions -> d2 ∈ directions -> d1 <> d2 ->
       let a1 := fst (processMessage key fetch t1 m1 a0) in
       let a2 := fst (processMessage key fetch t2 m2 a1) in
       exists es data, effects a2 = effects a1 ++ es /\ Negotiate data ∈ es).
Proof.
  intros a0. subst a0. rewrite handleEmergencyPreemption_eq. simpl. split.
  - repeat split. by rewrite <- app_assoc.
  - intros t1 t2 m1 m2 d1 d2 Hkeys Hneg [Ht1 Hd1] [Ht2 Hd2] Hin1 Hin2 Hne.
    set (a0 := emit _ (with_queues _ _)).
    assert (Hq0 : queuesByDirection a0 = initializeQueues).
    { subst a0. simpl. rewrite cleared_keys. fold (keys a). by rewrite Hkeys. }
    assert (Hn0 : currentNegotiations a0 = ∅) by (subst a0; simpl; exact Hneg).
    clearbody a0.
    remember (arriving t1 m1 a0) as r1 eqn:Hr1.
    remember (with_queues (update d1 (fun q => q ++ [r1]) (queuesByDirection a0)) a0)
      as b1 eqn:Hb1.
    remember (acknowledge m1 b1) as a1 eqn:Ha1.
    remember (arriving t2 m2 a1) as r2 eqn:Hr2.
    remember (with_queues (update d2 (fun q => q ++ [r2]) (queuesByDirection a1)) a1)
      as b2 eqn:Hb2.
    destruct (two_directions d1 d2 r1 r2 Hin1 Hin2 Hne) as (G1 & A1 & G2 & A2).
    rewrite <- Hq0 in G1, A1, G2, A2.
    assert (Qb1 : queuesByDirection b1
                  = update d1 (fun q => q ++ [r1]) (queuesByDirection a0))
      by (subst b1; reflexivity).
    assert (Qa1 : queuesByDirection a1 = queuesByDirection b1)
      by (subst a1; reflexivity).
    assert (Na1 : currentNegotiations a1 = ∅) by (subst a1 b1; exact Hn0).
    assert (Qb2 : queuesByDirection b2
                  = update d2 (fun q => q ++ [r2]) (queuesByDirection a1))
      by (subst b2; reflexivity).
    assert (Nb2 : currentNegotiations b2 = ∅) by (subst b2; exact Na1).
    assert (E1 : processMessage key fetch t1 m1 a0 = (a1, Returned tt)).
    { rewrite processMessage_crossing by exact Ht1.
      rewrite (handleCrossingRequest_enqueue key fetch t1 m1 a0 d1 [] Hd1 G1).
      cbv zeta. rewrite <- Hr1, <- Hb1, shouldNegotiate_eq, Qb1, A1.
      cbn [Nat.leb andb]. by rewrite <- Ha1. }
    rewrite E1. cbn [fst].
    rewrite processMessage_crossing by exact Ht2.
    rewrite Qa1, Qb1 in Qb2.
    assert (G2' : get (Some d2) (queuesByDirection a1) = Some [])
      by (rewrite Qa1, Qb1; exact G2).
    rewrite (handleCrossingRequest_enqueue key fetch t2 m2 a1 d2 [] Hd2 G2').
    cbv zeta. rewrite <- Hr2, <- Hb2, shouldNegotiate_eq, Qb2, A2, Nb2.
    change ((2 <=? 2)%nat && (size (∅ : gset Z) =? 0)%nat) with true. cbv iota.
    destruct (runAuctionNegotiation_negotiates key fetch t2 b2) as (es & data & Hes & Hin).
    assert (Eb2 : effects b2 = effects a1) by (subst b2; reflexivity).
    rewrite Eb2 in Hes.
    destruct (runAuctionNegotiation key fetch t2 b2) as [b [[]|e]]; cbn [fst] in *.
    + exists (es ++ [Send (sendMessage (sender m2) info
                       (crossing_request_ack
                          match get (p_direction (payload m2)) (queuesByDirection b) with
                          | Some queue => length queue
                          | None => 0%nat
                          end
                          (estimateWaitTime (p_direction (payload m2)) b))
                       default_priority default_ttl)]), data.
      split; [|apply elem_of_app; by left].
      unfold acknowledge, emit. cbn [effects]. rewrite Hes. by rewrite <- app_assoc.
    + exists es, data. split; assumption.
Qed.

End IntersectionFacts.

Lemma C10_witness :
  keys Traffic.one_waiting = Intersection.directions
  /\ (let run :=
        Intersection.handleCrossingRequest Traffic.key Traffic.unreachable 2500
          Traffic.sideways Traffic.one_waiting in
      snd run = Returned tt
      /\ Intersection.queuesByDirection (fst run)
         = Intersection.queuesByDirection Traffic.one_waiting
      /\ Intersection.currentNegotiations (fst run)
         = Intersection.currentNegotiations Traffic.one_waiting
      /\ Intersection.fairnessTracker (fst run)
         = Intersection.fairnessTracker Traffic.one_waiting
      /\ Intersection.effects (fst run)
         = Intersection.effects Traffic.one_waiting
           ++ [Intersection.Send
                 {| o_recipient := sender Traffic.sideways; o_message_type := info;
                    o_payload := crossing_request_ack 0 0;
                    o_priority := 5; o_ttl := 60 |}]).
Proof.
  assert (Hk : keys Traffic.one_waiting = Intersection.directions)
    by (vm_compute; reflexivity).
  split; [exact Hk|].
  apply (C10_unknown_direction Traffic.key Traffic.unreachable 2500 Traffic.sideways
           Traffic.one_waiting Hk).
  intros d H Hin. inversion H; subst.
  apply list_elem_of_In in Hin. simpl in Hin. intuition discriminate.
Defined.

(** C1 at a failing input: a vehicle waits in the north queue and the
    reasoning service cannot be reached. *)
Lemma C1_witness :
  Intersection.runAuctionNegotiation Traffic.key Traffic.unreachable 2500
    Traffic.one_waiting
  = (Intersection.with_negotiations
       (({[2500]} ∪ Intersection.currentNegotiations Traffic.one_waiting) ∖ {[2500]})
       (negotiating 2500 Traffic.one_waiting),
     Thrown (TypeError "crossingOrder is not iterable")).
Proof.
  apply (proj1 (C1_adapter_failure_throws Traffic.key Traffic.unreachable 2500
                  Traffic.one_waiting) "Reasoning failed"%string).
  reflexivity.
Defined.

Lemma C4_witness :
  let a0 := fst (Intersection.handleEmergencyPreemption
                   (Traffic.preemption "e1" 3000) Traffic.one_waiting) in
  let a1 := fst (Intersection.processMessage Traffic.key Traffic.unreachable 4000
                   Traffic.m3 a0) in
  let a2 := fst (Intersection.processMessage Traffic.key Traffic.unreachable 5000
                   Traffic.m4 a1) in
  exists es data,
    Intersection.effects a2 = Intersection.effects a1 ++ es
    /\ Intersection.Negotiate data ∈ es.
Proof.
  apply (proj2 (C4_preemption_clears_but_auctions_resume Traffic.key Traffic.unreachable
                  Traffic.one_waiting (Traffic.preemption "e1" 3000))
           4000 5000 Traffic.m3 Traffic.m4 "east"%string "west"%string).
  - vm_compute; reflexivity.
  - vm_compute; reflexivity.
  - split; reflexivity.
  - split; reflexivity.
  - apply list_elem_of_In. simpl. auto 10.
  - apply list_elem_of_In. simpl. auto 10.
  - discriminate.
Defined.

(** C4 as stated fails: the pre-emption at 3000 ms announces a corridor of
    120 seconds; requests from the east at 4000 ms and from the west at
    5000 ms follow, and the second one starts an auction. *)
Lemma C4_counterexample :
  let a1 := fst (Intersection.processMessage Traffic.key Traffic.unreachable 4000
                   Traffic.m3 Traffic.preempted) in
  let a2 := fst (Intersection.processMessage Traffic.key Traffic.unreachable 5000
                   Traffic.m4 a1) in
  p_duration (payload (Traffic.preemption "e1" 3000)) = Some 120%Q
  /\ negotiations (Intersection.effects Traffic.preempted) = 0%nat
  /\ negotiations (Intersection.effects a2) = 1%nat.
Proof. repeat split; vm_compute; reflexivity. Qed.

(** * Priorities and fairness penalties *)

Section PriorityFacts.
Import Intersection Nvidia.





End PriorityFacts.

Section DecayFacts.
Import Intersection Nvidia.

(** The constant is the double nearest to 0.95. *)
Lemma literal_0_95 : Number.literal 95 100 = Number.lit_0_95.
Proof. vm_compute. reflexivity. Qed.

Lemma apply_adjustments_other adjustments tracker company :
  company ∉ map fst adjustments ->
  apply_adjustments adjustments tracker !! company = tracker !! company.
Proof.
  revert tracker. induction adjustments as [|[c x] rest IH]; intros tracker H;
    [reflexivity|].
  cbn [map fst] in H. apply not_elem_of_cons in H as [Hne Hrest].
  change (apply_adjustments ((c, x) :: rest) tracker)
    with (apply_adjustments rest (<[c := Number.add (tracked tracker c) x]> tracker)).
  rewrite (IH _ Hrest). apply lookup_insert_ne. congruence.
Qed.

Lemma updateFairnessScores_eq result adjustments a :
  fairnessAdjustments (fields result) = Some adjustments ->
  updateFairnessScores result a
  = (with_fairness (round adjustments (fairnessTracker a)) a, Returned tt).
Proof.
  intros H. unfold updateFairnessScores.
  destruct result as [msg|[| |o]]; try discriminate H.
  simpl in H. simpl. rewrite H. reflexivity.
Qed.

Lemma updateFairnessScores_tracker result adjustments a company :
  fairnessAdjustments (fields result) = Some adjustments ->
  fairnessTracker (fst (updateFairnessScores result a)) !! company
  = decayed <$> (apply_adjustments adjustments (fairnessTracker a) !! company).
Proof.
  intros H. rewrite (updateFairnessScores_eq _ _ _ H).
  cbn [fst with_fairness fairnessTracker]. unfold round, decay_all.
  apply lookup_fmap.
Qed.

Lemma updateFairnessScores_spared result a company :
  spares company result ->
  fairnessTracker (fst (updateFairnessScores result a)) !! company
  = decayed <$> (fairnessTracker a !! company).
Proof.
  intros (adjustments & H & Hc).
  rewrite (updateFairnessScores_tracker _ _ _ _ H).
  by rewrite (apply_adjustments_other _ _ _ Hc).
Qed.

Lemma settled_spared results a company :
  Forall (spares company) results ->
  fairnessTracker (settled results a) !! company
  = Nat.iter (length results) decayed <$> (fairnessTracker a !! company).
Proof.
  intros H. revert a. induction H as [|result rest Hr _ IH]; intros a.
  - cbn [settled fold_left length Nat.iter]. by destruct (fairnessTracker a !! company).
  - change (settled (result :: rest) a)
      with (settled rest (fst (updateFairnessScores result a))).
    rewrite IH, (updateFairnessScores_spared _ _ _ Hr).
    destruct (fairnessTracker a !! company) as [x|]; [|reflexivity].
    cbn [fmap option_fmap option_map length]. f_equal. symmetry.
    apply Nat.iter_succ_r.
Qed.

Lemma floor_penalty_stays n : Nat.iter n decayed floor_penalty = floor_penalty.
Proof.
  induction n as [|n IH]; [reflexivity|].
  rewrite Nat.iter_succ, IH. vm_compute. reflexivity.
Qed.

Lemma iter_add {A} (f : A -> A) (n m : nat) (x : A) :
  Nat.iter (n + m) f x = Nat.iter m f (Nat.iter n f x).
Proof.
  revert x. induction n as [|n IH]; intros x; [reflexivity|].
  rewrite Nat.add_succ_l, !Nat.iter_succ_r. apply IH.
Qed.

End DecayFacts.

(** C8, as the code has it.  Once the adjustments of an auction are applied,
    the penalty of every company in the tracker, adjusted or not, is
    replaced by its binary64 product with the double nearest to 0.95.  After
    any number of auctions that do not adjust a company, its penalty is the
    initial one put through that rounded multiplication as many times; and a
    penalty of nine times the least positive number is left where it is by
    every such auction. *)
Theorem C8_fairness_decay (company : string) :
  Number.literal 95 100 = Number.lit_0_95
  /\ (forall result adjustments a,
       Nvidia.fairnessAdjustments (Nvidia.fields result) = Some adjustments ->
       snd (Intersection.updateFairnessScores result a) = Returned tt
       /\ Intersection.fairnessTracker (fst (Intersection.updateFairnessScores result a))
          !! company
          = (fun value => Number.mul value Number.lit_0_95)
            <$> (Intersection.apply_adjustments adjustments
                   (Intersection.fairnessTracker a) !! company)
       /\ (company ∉ map fst adjustments ->
           Intersection.fairnessTracker (fst (Intersection.updateFairnessScores result a))
           !! company
           = (fun value => Number.mul value Number.lit_0_95)
             <$> (Intersection.fairnessTracker a !! company)))
  /\ (forall results a,
       Forall (spares company) results ->
       Intersection.fairnessTracker (settled results a) !! company
       = Nat.iter (length results) (fun value => Number.mul value Number.lit_0_95)
         <$> (Intersection.fairnessTracker a !! company))
  /\ (forall results a,
       Forall (spares company) results ->
       Intersection.fairnessTracker a !! company = Some floor_penalty ->
       Intersection.fairnessTracker (settled results a) !! company = Some floor_penalty).
Proof.
  split; [apply literal_0_95|]. split; [|split].
  - intros result adjustments a H. split; [|split].
    + by rewrite (updateFairnessScores_eq _ _ _ H).
    + exact (updateFairnessScores_tracker _ _ _ _ H).
    + intros Hc. apply updateFairnessScores_spared. by exists adjustments.
  - intros results a H. exact (settled_spared _ _ _ H).
  - intros results a H Ha.
    rewrite (settled_spared _ _ _ H), Ha. cbn [fmap option_fmap option_map].
    f_equal. apply floor_penalty_stays.
Qed.

(** C8 on a tracker where one company owes 20: two auctions adjust another
    company only. *)
Lemma C8_witness :
  Forall (spares "waymo") [Samples.charges_cruise; Samples.quiet]
  /\ Intersection.fairnessTracker
       (settled [Samples.charges_cruise; Samples.quiet] Samples.owes_twenty)
     !! "waymo"%string
     = Some (S754_finite false 5080623329627341 (-48)).
Proof.
  assert (Hs : Forall (spares "waymo") [Samples.charges_cruise; Samples.quiet]).
  { constructor; [|constructor; [|constructor]].
    - eexists. split; [reflexivity|].
      intros Hin. apply list_elem_of_In in Hin. simpl in Hin. intuition discriminate.
    - eexists. split; [reflexivity|].
      intros Hin. apply list_elem_of_In in Hin. exact Hin. }
  split; [exact Hs|].
  refine (eq_trans
            (proj1 (proj2 (proj2 (C8_fairness_decay "waymo")))
               [Samples.charges_cruise; Samples.quiet] Samples.owes_twenty Hs) _).
  vm_compute. reflexivity.
Defined.

(** C8 as stated fails.  A penalty of 3 becomes 2.8499999999999996 in one
    auction, which is not the double nearest to 3 * 0.95; and a penalty of
    20 is, from the 14525th auction on, nine times the least positive
    number, so it never comes closer to zero. *)
Lemma C8_counterexample :
  Intersection.fairnessTracker
    (fst (Intersection.updateFairnessScores Samples.quiet Samples.owes_three))
  !! "waymo"%string
  = Some (S754_finite false 6417629469002956 (-51))
  /\ Number.literal 285 100 = S754_finite false 6417629469002957 (-51)
  /\ forall more : nat,
       Intersection.fairnessTracker
         (settled (repeat Samples.quiet (14525 + more)) Samples.owes_twenty)
       !! "waymo"%string
       = Some floor_penalty.
Proof.
  split; [vm_compute; reflexivity|]. split; [vm_compute; reflexivity|].
  intros more.
  assert (Hs : Forall (spares "waymo") (repeat Samples.quiet (14525 + more))).
  { apply Forall_forall. intros result Hin. apply list_elem_of_In, repeat_spec in Hin.
    subst result. eexists. split; [reflexivity|].
    intros H. apply list_elem_of_In in H. exact H. }
  rewrite (settled_spared _ _ _ Hs), repeat_length.
  change (Intersection.fairnessTracker Samples.owes_twenty !! "waymo"%string)
    with (Some (Number.of_Z 20)).
  cbn [fmap option_fmap option_map]. f_equal. rewrite iter_add.
  assert (E : Nat.iter 14525 Intersection.decayed (Number.of_Z 20) = floor_penalty)
    by (vm_compute; reflexivity).
  rewrite E. apply floor_penalty_stays.
Qed.
(** * Further properties of the code *)

(** ** The consensus loop *)

Section ConsensusExtras.
Import Consensus.

Lemma wait_prefix participants startTime timeoutMs polls more responses r :
  wait participants startTime timeoutMs polls responses = Some r ->
  wait participants startTime timeoutMs (polls ++ more) responses = Some r.
Proof.
  revert responses. induction polls as [|p rest IH]; intros responses; simpl; [discriminate|].
  destruct (clock p - startTime <? timeoutMs); [|auto].
  set (rs := match data p with Some rows => _ | None => _ end).
  destruct (quorum participants rs); [auto | apply IH].
Qed.

Lemma record_app rows1 rows2 responses :
  record (rows1 ++ rows2) responses = record rows2 (record rows1 responses).
Proof. unfold record. rewrite filter_app, fold_left_app. reflexivity. Qed.

Lemma record_other rows s responses :
  (forall row, row ∈ rows -> is_vote row = true -> row_sender row <> s) ->
  record rows responses !! s = responses !! s.
Proof.
  revert responses. induction rows as [|row rest IH]; intros responses H; [reflexivity|].
  change (row :: rest) with ([row] ++ rest). rewrite record_app.
  rewrite IH by (intros x Hx; apply H; by apply list_elem_of_further).
  unfold record. simpl. rewrite filter_cons, filter_nil.
  destruct (decide (is_vote row = true)) as [Hv|Hv]; simpl; [|reflexivity].
  apply lookup_insert_ne. apply H; [apply list_elem_of_here | exact Hv].
Qed.

End ConsensusExtras.

(** X1: the polling loop of [gatherConsensus] ends.  As soon as one poll
    finds the clock at or past the timeout the call returns; whenever it
    returns, the quorum was reached or such a poll happened; and the polls
    that would have followed do not change the result. *)
Theorem X1_consensus_loop_ends (participants : list string) timeoutMs startTime polls :
  (Exists (timed_out startTime timeoutMs) polls ->
     exists r, snd (Consensus.gatherConsensus participants timeoutMs startTime polls) = Some r)
  /\ (forall r,
       snd (Consensus.gatherConsensus participants timeoutMs startTime polls) = Some r ->
       (Consensus.quorum participants (Consensus.responses r) = true
        \/ Exists (timed_out startTime timeoutMs) polls)
       /\ forall more,
            snd (Consensus.gatherConsensus participants timeoutMs startTime (polls ++ more))
            = Some r).
Proof.
  split.
  - intros H. unfold Consensus.gatherConsensus; simpl.
    destruct (wait_returns participants startTime timeoutMs polls ∅ H) as [rs ->]. eauto.
  - intros r Hrun. destruct (gatherConsensus_inv _ _ _ _ _ Hrun) as [Hwait Happ]. split.
    + exact (wait_exit _ _ _ _ _ _ Hwait).
    + intros more. unfold Consensus.gatherConsensus; simpl.
      rewrite (wait_prefix _ _ _ _ more _ _ Hwait).
      destruct r as [ap rs]. simpl in *. by rewrite Happ.
Qed.

(** X2: for up to a hundred participants the two thresholds, computed in
    binary64 with the literals 0.7 and 0.51, are the exact ones: the quorum
    is reached exactly when ten times the responses reach seven times the
    participants, and the proposal is approved exactly when a hundred times
    the approvals reach fifty-one times the responses. *)
Theorem X2_thresholds_up_to_100 (participants : list string) (responses : gmap string bool) :
  ((length participants <= 100)%nat -> (size responses <= 100)%nat ->
     (Consensus.quorum participants responses = true
      <-> (7 * length participants <= 10 * size responses)%nat))
  /\ ((size responses <= 100)%nat ->
     (Consensus.majority responses = true
      <-> (51 * size responses <= 100 * Consensus.approvals responses)%nat)).
Proof.
  split.
  - intros Hp Hs. unfold Consensus.quorum.
    rewrite reaches_0_7 by lia. rewrite Z.leb_le, exact_ceil_le by lia. lia.
  - intros Hs. pose proof (approvals_le_size responses).
    unfold Consensus.majority.
    rewrite reaches_0_51 by lia. rewrite Z.leb_le, exact_ceil_le by lia. lia.
Qed.

(** X3: the responses are keyed by sender and the last row wins.  After a
    vote is recorded its sender's entry is that vote; a row that is neither
    an acceptance nor a rejection changes nothing; and a sender without a
    vote among the rows keeps the entry it had. *)
Theorem X3_last_response_wins (rows : list Consensus.Row) (r : Consensus.Row)
    (responses : gmap string bool) :
  (Consensus.is_vote r = true ->
     Consensus.record (rows ++ [r]) responses !! Consensus.row_sender r
     = Some (bool_decide (Consensus.row_message_type r = acceptance)))
  /\ (Consensus.is_vote r = false ->
     Consensus.record (rows ++ [r]) responses = Consensus.record rows responses)
  /\ (forall s,
       (forall row, row ∈ rows -> Consensus.is_vote row = true ->
                    Consensus.row_sender row <> s) ->
       Consensus.record rows responses !! s = responses !! s).
Proof.
  split; [|split].
  - intros Hv. rewrite record_app. unfold Consensus.record at 1. simpl.
    rewrite filter_cons, filter_nil.
    destruct (decide (Consensus.is_vote r = true)); [|contradiction].
    simpl. apply lookup_insert_eq.
  - intros Hv. rewrite record_app. unfold Consensus.record at 1. simpl.
    rewrite filter_cons, filter_nil.
    destruct (decide (Consensus.is_vote r = true)); [congruence | reflexivity].
  - intros s H. apply record_other. exact H.
Qed.


(** ** The intersection agent over histories *)

Section IntersectionExtras.
Import Intersection Nvidia.

Lemma settle_negotiations result allRequests a :
  currentNegotiations (fst (settle result allRequests a)) = currentNegotiations a.
Proof.
  apply (stable_settle (fun a b => currentNegotiations b = currentNegotiations a)).
  - reflexivity.
  - intros x y z H1 H2. congruence.
  - reflexivity.
  - reflexivity.
  - reflexivity.
Qed.

Lemma runAuctionNegotiation_negotiations key fetch now a :
  currentNegotiations (fst (runAuctionNegotiation key fetch now a))
  = currentNegotiations a ∖ {[now]}.
Proof.
  rewrite runAuctionNegotiation_eq. cbv zeta.
  set (a1 := refresh_all now _).
  destruct (negotiateIntersection _ _) as [result|e].
  - pose proof (settle_negotiations result (concat (map snd (queuesByDirection a1)))
                  (negotiating now a)) as H.
    destruct (settle _ _ _) as [b r]. simpl in *. rewrite H.
    apply set_eq. intros x. rewrite !elem_of_difference, elem_of_union. tauto.
  - simpl. apply set_eq. intros x. rewrite !elem_of_difference, elem_of_union. tauto.
Qed.

Lemma handleCrossingRequest_cases key fetch now message a :
  handleCrossingRequest key fetch now message a
  = (acknowledge message a, Returned tt)
  \/ exists d q, p_direction (payload message) = Some d
       /\ get (Some d) (queuesByDirection a) = Some q.
Proof.
  destruct (p_direction (payload message)) as [d|] eqn:Hd.
  - destruct (get (Some d) (queuesByDirection a)) as [q|] eqn:Hq; [right; eauto|].
    left. unfold handleCrossingRequest, acknowledge, bind, read, send, modify, ret,
      estimateWaitTime.
    simpl. rewrite !Hd. simpl. rewrite !Hq. reflexivity.
  - left. unfold handleCrossingRequest, acknowledge, bind, read, send, modify, ret.
    simpl. rewrite !Hd. reflexivity.
Qed.

Lemma processMessage_negotiations key fetch now message a :
  currentNegotiations (fst (processMessage key fetch now message a))
  ⊆ currentNegotiations a.
Proof.
  unfold processMessage.
  destruct (p_type (payload message)) as [t|]; [|reflexivity].
  destruct (String.eqb t "crossing-request").
  - destruct (handleCrossingRequest_cases key fetch now message a)
      as [->|(d & q & Hd & Hq)]; [reflexivity|].
    rewrite (handleCrossingRequest_enqueue key fetch now message a d q Hd Hq).
    cbv zeta. set (queued := with_queues _ a).
    destruct (shouldNegotiate queued); [|reflexivity].
    pose proof (runAuctionNegotiation_negotiations key fetch now queued) as H.
    destruct (runAuctionNegotiation key fetch now queued) as [b [[]|e]];
      simpl in *; rewrite H; apply subseteq_difference_l; reflexivity.
  - destruct (String.eqb t "emergency-preemption").
    + rewrite handleEmergencyPreemption_eq. reflexivity.
    + destruct (String.eqb t "status-query"); reflexivity.
Qed.

Lemma deliver_all_invariant key fetch history a :
  keys (deliver_all key fetch history a) = keys a
  /\ currentNegotiations (deliver_all key fetch history a) ⊆ currentNegotiations a.
Proof.
  revert a. induction history as [|[now message] rest IH]; intros a; [split; reflexivity|].
  change (deliver_all key fetch ((now, message) :: rest) a)
    with (deliver_all key fetch rest (fst (processMessage key fetch now message a))).
  destruct (IH (fst (processMessage key fetch now message a))) as [H1 H2]. split.
  - rewrite H1. apply processMessage_keys.
  - etransitivity; [exact H2 | apply processMessage_negotiations].
Qed.

Lemma get_known d qs : d ∈ map fst qs -> is_Some (get (Some d) qs).
Proof.
  induction qs as [|[k q] rest IH]; simpl; intros H; [by apply elem_of_nil in H|].
  destruct (String.eqb_spec k d); [eauto|].
  apply IH. apply elem_of_cons in H as [H|H]; [congruence | exact H].
Qed.

(** X4: whatever messages a new intersection agent is delivered, at
    whatever times and whatever the reasoning service answers, it ends with
    exactly its eight direction queues and with no negotiation marked as
    running. *)
Theorem X4_eight_queues_one_semaphore key fetch history intersectionId :
  let a := deliver_all key fetch history (new intersectionId) in
  keys a = directions
  /\ currentNegotiations a = ∅
  /\ forall d, is_Some (get (Some d) (queuesByDirection a)) <-> d ∈ directions.
Proof.
  intros a. subst a.
  destruct (deliver_all_invariant key fetch history (new intersectionId)) as [Hk Hn].
  assert (Hkeys : keys (deliver_all key fetch history (new intersectionId)) = directions)
    by (rewrite Hk; reflexivity).
  split; [exact Hkeys|]. split.
  - simpl in Hn. set_solver.
  - intros d. split.
    + intros Hs. destruct (decide (d ∈ directions)) as [|Hn']; [assumption|].
      rewrite get_unknown in Hs; [by destruct Hs|]. fold (keys (deliver_all key fetch history (new intersectionId))).
      by rewrite Hkeys.
    + intros Hd. apply get_known.
      fold (keys (deliver_all key fetch history (new intersectionId))). by rewrite Hkeys.
Qed.


(** X5: [reason] hands back the parsed content exactly when the service
    answered with a status from 200 to 299 and a content that parses; in
    every other case it resolves to an error object, which has no crossing
    order.  [negotiateIntersection] resolves to what [reason] gives, and
    throws only when the API key is missing or empty. *)
Theorem X5_reason_outcomes (outcome : FetchOutcome) :
  (forall j, reason outcome = parsed_json j
             <-> exists status, (200 <= status <= 299)
                   /\ outcome = Response status (Content (Some j)))
  /\ ((forall j, reason outcome <> parsed_json j) ->
      exists error, reason outcome = error_object error
        /\ crossingOrder (fields (reason outcome)) = None)
  /\ (forall key,
       negotiateIntersection key outcome = Returned (reason outcome)
       \/ (negotiateIntersection key outcome
             = Thrown (ConfigError "NVIDIA_API_KEY not configured")
           /\ (key = None \/ key = Some ""%string))).
Proof.
  split; [|split].
  - intros j. split.
    + destruct outcome as [|status body]; simpl; [discriminate|].
      destruct (ok status) eqn:Hok; [|discriminate].
      destruct body as [|[j'|]]; try discriminate.
      intros [= ->]. exists status. split; [|reflexivity].
      unfold ok in Hok. apply andb_prop in Hok as [H1 H2]. lia.
    + intros (status & Hs & ->). simpl.
      assert (Hok : ok status = true).
      { unfold ok. apply andb_true_intro. split; apply Z.leb_le; lia. }
      rewrite Hok. reflexivity.
  - intros H. destruct (reason outcome) as [error|j] eqn:E.
    + exists error. split; reflexivity.
    + destruct (H j). reflexivity.
  - intros [[|c s]|]; simpl; auto.
Qed.


Lemma take_vehicle_map v qs r :
  snd (take_vehicle v qs r) = map (fun '(k, q) => (k, snd (splice_vehicle v q))) qs.
Proof.
  revert r. induction qs as [|[k q] rest IH]; intros r; simpl; [reflexivity|].
  destruct (splice_vehicle v q) as [found q']. simpl.
  specialize (IH match found with Some r0 => Some r0 | None => r end).
  destruct (take_vehicle v rest _) as [l rest']. simpl in *. by rewrite IH.
Qed.

Lemma splice_vehicle_unlisted order v q :
  In v order -> unlisted order (snd (splice_vehicle v q)) = unlisted order q.
Proof.
  intros Hv. induction q as [|r rest IH]; simpl; [reflexivity|].
  destruct (String.eqb_spec (vehicleId r) v) as [E|E]; simpl.
  - assert (H : existsb (String.eqb (vehicleId r)) order = true).
    { apply existsb_exists. exists v. split; [exact Hv|]. by apply String.eqb_eq. }
    by rewrite H.
  - destruct (splice_vehicle v rest) as [found rest']. simpl in *. by rewrite IH.
Qed.

Lemma cross_unlisted order times l a :
  (forall v, In v l -> In v order) ->
  map (fun '(k, q) => (k, unlisted order q)) (queuesByDirection (fst (cross times l a)))
  = map (fun '(k, q) => (k, unlisted order q)) (queuesByDirection a).
Proof.
  revert a. induction l as [|v rest IH]; intros a Hl; [reflexivity|].
  assert (Hstep :
    map (fun '(k, q) => (k, unlisted order q))
        (snd (take_vehicle v (queuesByDirection a) None))
    = map (fun '(k, q) => (k, unlisted order q)) (queuesByDirection a)).
  { rewrite take_vehicle_map, map_map. apply map_ext. intros [k q].
    f_equal. apply splice_vehicle_unlisted. apply Hl. by left. }
  assert (Hrest : forall v0, In v0 rest -> In v0 order) by (intros v0 H0; apply Hl; by right).
  simpl. unfold bind, read, modify.
  destruct (take_vehicle v (queuesByDirection a) None) as [vehicleRequest qs].
  simpl in Hstep. simpl.
  destruct vehicleRequest as [r|].
  - destruct times as [times|]; simpl.
    + rewrite IH by exact Hrest. exact Hstep.
    + exact Hstep.
  - simpl. rewrite IH by exact Hrest. exact Hstep.
Qed.

(** X6: executing a crossing order removes only vehicles the order lists:
    in every queue the requests of the other vehicles stay, in their
    order. *)
Theorem X6_unlisted_vehicles_stay (result : Decision) (order : list string) (a : Agent) :
  crossingOrder (fields result) = Some order ->
  map (fun '(k, q) => (k, unlisted order q))
      (queuesByDirection (fst (executeCrossingOrder result a)))
  = map (fun '(k, q) => (k, unlisted order q)) (queuesByDirection a).
Proof.
  intros H. unfold executeCrossingOrder.
  destruct result as [msg|[| |o]]; try discriminate H.
  simpl in *. rewrite H. apply cross_unlisted. auto.
Qed.

Lemma cross_returns times order a : snd (cross (Some times) order a) = Returned tt.
Proof.
  revert a. induction order as [|v rest IH]; intros a; [reflexivity|].
  simpl. unfold bind, read, modify.
  destruct (take_vehicle v (queuesByDirection a) None) as [[r|] qs]; simpl; apply IH.
Qed.

Lemma cross_fairness times order a :
  fairnessTracker (fst (cross times order a)) = fairnessTracker a.
Proof.
  apply (stable_cross (fun a b => fairnessTracker b = fairnessTracker a)).
  - reflexivity.
  - intros x y z H1 H2. congruence.
  - reflexivity.
  - reflexivity.
Qed.


Lemma cross_effects times order a :
  exists es, effects (fst (cross times order a)) = effects a ++ es
             /\ forallb is_permission es = true.
Proof.
  revert a. induction order as [|v rest IH]; intros a.
  - exists []. split; [simpl; by rewrite app_nil_r | reflexivity].
  - simpl. unfold bind, read, modify.
    destruct (take_vehicle v (queuesByDirection a) None) as [[r|] qs]; simpl.
    + destruct times as [times|]; simpl.
      * destruct (IH (emit [Send (sendMessage ("vehicle-" +:+ v) info
                                    (crossing_permission (intersectionId a)
                                       (or_else (times !! v) 0) true) 10 default_ttl)]
                        (with_queues qs a))) as (es & Hes & Hp).
        eexists (_ :: es). split; [rewrite Hes; simpl; by rewrite <- app_assoc|].
        simpl. exact Hp.
      * exists []. split; [by rewrite app_nil_r | reflexivity].
    + destruct (IH (with_queues qs a)) as (es & Hes & Hp).
      exists es. split; [exact Hes | exact Hp].
Qed.

(** X7: when the reasoning service answers with an object that has a
    crossing order, wait times and fairness adjustments, the auction
    completes: it returns, the fairness tracker is moved by one round of
    these adjustments, the negotiation is no longer marked, the vehicles the
    order does not list stay queued, and what is emitted is the request to
    the service, then crossing permissions only, then one event log. *)
Theorem X7_complete_result_completes key fetch now a o order times adjustments :
  let a1 := refresh_all now (with_negotiations ({[now]} ∪ currentNegotiations a) a) in
  negotiateIntersection key (fetch (intersectionData now a1))
  = Returned (parsed_json (json_object o)) ->
  crossingOrder o = Some order ->
  waitTimes o = Some times ->
  fairnessAdjustments o = Some adjustments ->
  let run := runAuctionNegotiation key fetch now a in
  snd run = Returned tt
  /\ fairnessTracker (fst run) = round adjustments (fairnessTracker a)
  /\ currentNegotiations (fst run) = currentNegotiations a ∖ {[now]}
  /\ map (fun '(k, q) => (k, unlisted order q)) (queuesByDirection (fst run))
     = map (fun '(k, q) => (k, unlisted order q)) (queuesByDirection a1)
  /\ exists permissions,
       forallb is_permission permissions = true
       /\ effects (fst run)
          = effects a ++ Negotiate (intersectionData now a1) :: permissions
            ++ [LogEvent (map vehicleId (requests (intersectionData now a1)))
                         (length (requests (intersectionData now a1)))].
Proof.
  intros a1 Hres Ho Ht Hf run.
  pose proof (runAuctionNegotiation_negotiations key fetch now a) as Hneg.
  subst run. revert Hneg. rewrite runAuctionNegotiation_eq. cbv zeta. fold a1.
  rewrite Hres. unfold settle, executeCrossingOrder, updateFairnessScores, bind, modify.
  simpl. rewrite Ho, Ht, Hf.
  pose proof (cross_returns times order (negotiating now a)) as Hret.
  pose proof (cross_fairness (Some times) order (negotiating now a)) as Hfair.
  pose proof (cross_unlisted order (Some times) order (negotiating now a)
                (fun v H => H)) as Hun.
  destruct (cross_effects (Some times) order (negotiating now a)) as (es & Hes & Hp).
  destruct (cross (Some times) order (negotiating now a)) as [c r].
  simpl in *. subst r. simpl. intros Hneg.
  split; [reflexivity|]. split; [by rewrite Hfair|]. split; [exact Hneg|].
  split; [exact Hun|].
  exists es. split; [exact Hp|]. rewrite Hes. fold a1.
  rewrite <- !app_assoc. reflexivity.
Qed.


Lemma activeDirections_from n qs :
  fold_left (fun n '(_, queue) => if (0 <? length queue)%nat then S n else n) qs n
  = (n + activeDirections qs)%nat.
Proof.
  unfold activeDirections. revert n.
  induction qs as [|[k q] rest IH]; intros n; simpl; [lia|].
  rewrite IH, (IH (if (0 <? length q)%nat then 1%nat else 0%nat)).
  destruct (0 <? length q)%nat; lia.
Qed.

Lemma activeDirections_cons k q (rest : list (string * list CrossingRequest)) :
  activeDirections ((k, q) :: rest)
  = ((if (0 <? length q)%nat then 1 else 0) + activeDirections rest)%nat.
Proof.
  unfold activeDirections at 1. simpl. rewrite activeDirections_from.
  destruct (0 <? length q)%nat; reflexivity.
Qed.

Lemma activeDirections_idle (qs : list (string * list CrossingRequest)) :
  Forall (fun kq => snd kq = []) qs -> activeDirections qs = 0%nat.
Proof.
  induction 1 as [|[k q] rest Hq Hrest IH]; [reflexivity|].
  rewrite activeDirections_cons, IH. simpl in Hq. subst q. reflexivity.
Qed.

Lemma activeDirections_single d f (qs : list (string * list CrossingRequest)) :
  NoDup (map fst qs) ->
  Forall (fun kq => fst kq = d \/ snd kq = []) qs ->
  (activeDirections (update d f qs) <= 1)%nat.
Proof.
  intros Hnd Hall. induction qs as [|[k q] rest IH]; simpl; [unfold activeDirections; simpl; lia|].
  inversion Hnd as [|? ? Hk Hnd']; subst. inversion Hall as [|? ? Hq Hall']; subst.
  destruct (String.eqb_spec k d) as [->|Hne].
  - rewrite activeDirections_cons, activeDirections_idle.
    + destruct (0 <? length (f q))%nat; lia.
    + clear IH Hq Hall Hnd Hnd'. induction rest as [|[k' q'] rest' IH']; constructor.
      * inversion Hall' as [|? ? Hq' ?]; subst. simpl in *.
        destruct Hq' as [->|Hq']; [|exact Hq'].
        exfalso. apply Hk. apply list_elem_of_here.
      * inversion Hall'; subst. apply IH'; [|assumption].
        intros Hin. apply Hk. by apply list_elem_of_further.
  - rewrite activeDirections_cons. simpl in Hq. destruct Hq as [Hq|Hq]; [congruence|].
    subst q. simpl. apply IH; assumption.
Qed.

Lemma get_update_eq d f qs q :
  get (Some d) qs = Some q -> get (Some d) (update d f qs) = Some (f q).
Proof.
  induction qs as [|[k q0] rest IH]; simpl; [discriminate|].
  destruct (String.eqb_spec k d) as [->|Hne]; simpl.
  - intros [= ->]. by rewrite String.eqb_refl.
  - intros H. destruct (String.eqb_spec k d); [contradiction | auto].
Qed.

Lemma get_update_ne d d' f qs :
  d <> d' -> get (Some d') (update d f qs) = get (Some d') qs.
Proof.
  intros Hne. induction qs as [|[k q0] rest IH]; simpl; [reflexivity|].
  destruct (String.eqb_spec k d) as [->|Hkd]; simpl.
  - destruct (String.eqb_spec d d'); [contradiction | reflexivity].
  - destruct (String.eqb_spec k d'); [reflexivity | exact IH].
Qed.

(** X8: a crossing request for a direction, while every other direction's
    queue is empty, starts no auction: the request is appended to its queue,
    the other queues are untouched, and the one message sent is the
    acknowledgement carrying the position in the queue and fifteen seconds
    per position. *)
Theorem X8_lone_direction_is_queued key fetch now message a d q :
  NoDup (keys a) ->
  p_direction (payload message) = Some d ->
  get (Some d) (queuesByDirection a) = Some q ->
  Forall (fun kq => fst kq = d \/ snd kq = []) (queuesByDirection a) ->
  let run := handleCrossingRequest key fetch now message a in
  snd run = Returned tt
  /\ get (Some d) (queuesByDirection (fst run)) = Some (q ++ [arriving now message a])
  /\ (forall d', d <> d' ->
        get (Some d') (queuesByDirection (fst run)) = get (Some d') (queuesByDirection a))
  /\ effects (fst run)
     = effects a
       ++ [Send (sendMessage (sender message) info
                   (crossing_request_ack (S (length q)) (15 * Z.of_nat (S (length q))))
                   default_priority default_ttl)].
Proof.
  intros Hnd Hd Hq Hall run. subst run.
  rewrite (handleCrossingRequest_enqueue key fetch now message a d q Hd Hq). cbv zeta.
  set (queued := with_queues _ a).
  assert (Hs : shouldNegotiate queued = false).
  { rewrite shouldNegotiate_eq. subst queued. unfold with_queues.
    cbn [queuesByDirection currentNegotiations].
    pose proof (activeDirections_single d (fun q0 => q0 ++ [arriving now message a])
                  (queuesByDirection a) Hnd Hall) as H.
    rewrite (proj2 (Nat.leb_gt 2 _)) by lia. reflexivity. }
  rewrite Hs. cbn [fst snd].
  assert (Hget : get (Some d) (queuesByDirection queued)
                 = Some (q ++ [arriving now message a])).
  { subst queued. unfold with_queues. cbn [queuesByDirection].
    exact (get_update_eq d (fun q0 => q0 ++ [arriving now message a]) _ q Hq). }
  split; [reflexivity|]. split; [exact Hget|]. split.
  - intros d' Hne. unfold acknowledge, emit. subst queued. unfold with_queues.
    cbn [queuesByDirection]. by apply get_update_ne.
  - unfold acknowledge, estimateWaitTime. rewrite Hd, Hget. simpl effects.
    rewrite length_app. simpl length. rewrite Nat.add_1_r.
    do 5 f_equal. lia.
Qed.


Lemma concat_cleared (qs : list (string * list CrossingRequest)) :
  concat (map snd (map (fun '(k, _) => (k, @nil CrossingRequest)) qs)) = [].
Proof. induction qs as [|[k q] rest IH]; simpl; [reflexivity | exact IH]. Qed.

Lemma cleared_twice (qs : list (string * list CrossingRequest)) :
  map (fun '(k, _) => (k, @nil CrossingRequest))
      (map (fun '(k, _) => (k, @nil CrossingRequest)) qs)
  = map (fun '(k, _) => (k, @nil CrossingRequest)) qs.
Proof. rewrite map_map. apply map_ext. intros [k q]. reflexivity. Qed.

(** X9: a second emergency pre-emption right after a first finds the
    queues empty: it sends no yield message, leaves the queues as they are
    and only stores the intersection state again, with every queue length
    zero. *)
Theorem X9_second_preemption_sends_no_yield (first second : Message) (a : Agent) :
  let a1 := fst (handleEmergencyPreemption first a) in
  let a2 := fst (handleEmergencyPreemption second a1) in
  queuesByDirection a2 = queuesByDirection a1
  /\ effects a2
     = effects a1
       ++ [UpsertState (map (fun '(k, _) => (k, 0%nat)) (queuesByDirection a))
                       (elements (currentNegotiations a))
                       (Some true) (p_duration (payload second))].
Proof.
  intros a1 a2. subst a2 a1. rewrite !handleEmergencyPreemption_eq. simpl.
  rewrite concat_cleared, cleared_twice. simpl. rewrite app_nil_r.
  split; [reflexivity|]. do 3 f_equal.
  rewrite map_map. apply map_ext. intros [k q]. reflexivity.
Qed.

Lemma total_lengths (qs : list (string * list CrossingRequest)) :
  length (concat (map snd qs))
  = fold_right Nat.add 0%nat (map snd (map (fun '(dir, queue) => (dir, length queue)) qs)).
Proof.
  induction qs as [|[k q] rest IH]; simpl; [reflexivity|].
  rewrite length_app, IH. reflexivity.
Qed.

(** X10: a status query is answered to its sender by one message that
    reports every queue with its own length, in the order of the queues, a
    total that is the sum of these lengths, and the number of negotiations;
    when every queue is empty the total and the average wait time are zero.
    The queues are not changed. *)
Theorem X10_status_query_reports_totals (now : Z) (message : Message) (a : Agent) :
  let run := handleStatusQuery now message a in
  let lengths := map (fun kq => (fst kq, length (snd kq))) (queuesByDirection a) in
  let total := fold_right Nat.add 0%nat (map snd lengths) in
  snd run = Returned tt
  /\ queuesByDirection (fst run) = queuesByDirection a
  /\ effects (fst run)
     = effects a
       ++ [Send {| o_recipient := sender message; o_message_type := info;
                   o_payload :=
                     status_response lengths total (size (currentNegotiations a))
                                     (calculateAverageWaitTime now a);
                   o_priority := 5; o_ttl := 60 |}]
  /\ (Forall (fun kq => snd kq = []) (queuesByDirection a) ->
      total = 0%nat /\ (calculateAverageWaitTime now a == 0)%Q).
Proof.
  intros run lengths total.
  assert (Hl : queue_lengths a = lengths).
  { unfold queue_lengths. subst lengths. apply map_ext. intros [k q]. reflexivity. }
  assert (Ht : length (concat (map snd (queuesByDirection a))) = total).
  { rewrite total_lengths. fold (queue_lengths a). rewrite Hl. reflexivity. }
  split; [reflexivity|]. split; [reflexivity|]. split.
  - subst run. unfold handleStatusQuery, bind, read, send, modify, emit, sendMessage.
    cbn [fst effects]. rewrite Hl, Ht. reflexivity.
  - intros He.
    assert (Hz : total = 0%nat).
    { subst total lengths. clear Hl Ht run.
      induction He as [|[k q] rest Hq _ IH]; [reflexivity|].
      cbn [map snd fst fold_right] in *. rewrite IH. simpl in Hq. subst q. reflexivity. }
    split; [exact Hz|]. unfold calculateAverageWaitTime. cbv zeta.
    rewrite Ht, Hz. cbn [Nat.ltb Nat.leb]. apply Qeq_refl.
Qed.






(** X12: a crossing request that reports a battery level of zero is queued
    with a battery level of 100: the arriving message counts as critical,
    but every later refresh of the queued request does not.  Any other
    reported level is stored as it is. *)
Theorem X12_reported_battery_zero_is_stored_full (now later : Z) (message : Message)
    (a : Agent) (tracker : gmap string spec_float) (b : Q) :
  p_batteryLevel (payload message) = Some b ->
  let request := arriving now message a in
  ((b == 0)%Q ->
     batteryLevel request = 100%Q
     /\ battery_critical (p_batteryLevel (payload message)) = true
     /\ battery_critical (p_batteryLevel (spread (refresh tracker later request))) = false)
  /\ (~ (b == 0)%Q ->
     batteryLevel request = b
     /\ battery_critical (p_batteryLevel (spread (refresh tracker later request)))
        = battery_critical (p_batteryLevel (payload message))).
Proof.
  intros Hb request. subst request. unfold arriving, refresh.
  cbn [batteryLevel spread p_batteryLevel]. rewrite Hb. cbn [or_else battery_critical].
  split; intros H0.
  - assert (E : Qeq_bool b 0 = true) by (apply Qeq_bool_iff; exact H0).
    rewrite E. split; [reflexivity|]. split.
    + destruct (Qlt_le_dec b 20) as [|H]; [reflexivity|]. exfalso. lra.
    + destruct (Qlt_le_dec 100 20) as [H|]; [|reflexivity]. exfalso. lra.
  - assert (E : Qeq_bool b 0 = false).
    { destruct (Qeq_bool b 0) eqn:E; [|reflexivity].
      apply Qeq_bool_iff in E. contradiction. }
    rewrite E. split; reflexivity.
Qed.

End IntersectionExtras.


(** ** Dispatch on the payload type *)

Section DispatchExtras.
Import Intersection.

Lemma processMessage_dispatch key fetch now message a :
  processMessage key fetch now message a
  = Dispatch.processMessage (fun m => p_type (payload m))
      (intersection_handlers key fetch now) message a.
Proof.
  unfold processMessage, Dispatch.processMessage, Dispatch.handler_for,
    intersection_handlers.
  destruct (p_type (payload message)) as [t|]; [|reflexivity].
  cbn [rev app List.find fst].
  rewrite (String.eqb_sym "status-query" t), (String.eqb_sym "emergency-preemption" t),
    (String.eqb_sym "crossing-request" t).
  destruct (String.eqb t "status-query") eqn:E3;
    destruct (String.eqb t "emergency-preemption") eqn:E2;
    destruct (String.eqb t "crossing-request") eqn:E1;
    try reflexivity;
    repeat match goal with
           | H : String.eqb _ _ = true |- _ => apply String.eqb_eq in H
           end; subst; discriminate.
Qed.

End DispatchExtras.

Lemma processMessage_untyped {Agent Incoming : Type}
    (type_of : Incoming -> option string)
    (messageHandlers : list (string * (Incoming -> Agent -> Agent * Completion unit)))
    (message : Incoming) (a : Agent) :
  type_of message = None ->
  Dispatch.processMessage type_of messageHandlers message a = (a, Returned tt).
Proof. intros H. unfold Dispatch.processMessage. by rewrite H. Qed.

Lemma find_absent {A} (f : A -> bool) (l : list A) :
  (forall x, In x l -> f x = false) -> List.find f l = None.
Proof.
  induction l as [|x rest IH]; intros H; [reflexivity|]. simpl.
  rewrite (H x) by (by left). apply IH. intros y Hy. apply H. by right.
Qed.

(** X13: [processMessage] drops what it has no handler for.  A message
    whose payload has no type, or a type no handler is registered for,
    leaves the agent unchanged and returns; a message whose type was
    registered last is handed to that handler. *)
Theorem X13_unhandled_messages_are_dropped {Agent Incoming : Type}
    (type_of : Incoming -> option string)
    (messageHandlers : list (string * (Incoming -> Agent -> Agent * Completion unit)))
    (message : Incoming) (a : Agent) :
  (type_of message = None ->
     Dispatch.processMessage type_of messageHandlers message a = (a, Returned tt))
  /\ (forall t, type_of message = Some t -> t ∉ map fst messageHandlers ->
       Dispatch.processMessage type_of messageHandlers message a = (a, Returned tt))
  /\ (forall t handler earlier,
       type_of message = Some t ->
       messageHandlers = earlier ++ [(t, handler)] ->
       Dispatch.processMessage type_of messageHandlers message a = handler message a).
Proof.
  split; [|split].
  - intros H. unfold Dispatch.processMessage. by rewrite H.
  - intros t H Hn. unfold Dispatch.processMessage, Dispatch.handler_for. rewrite H.
    assert (Hf : List.find (fun entry => String.eqb (fst entry) t) (rev messageHandlers)
                 = None).
    { apply find_absent. intros [k h] Hin. cbn [fst].
      destruct (String.eqb_spec k t) as [->|]; [|reflexivity].
      exfalso. apply Hn. apply in_rev in Hin.
      apply list_elem_of_In. apply in_map_iff. exists (t, h). auto. }
    rewrite Hf. reflexivity.
  - intros t handler earlier H ->. unfold Dispatch.processMessage, Dispatch.handler_for.
    rewrite H, rev_app_distr. simpl. rewrite String.eqb_refl. reflexivity.
Qed.

(** X14: the proposals [gatherConsensus] broadcasts go to the participants
    as messages of type proposal whose payload has no [type] key, so an
    intersection agent that receives one runs no handler: its state is
    unchanged, nothing is sent back, and the message is marked delivered. *)
Theorem X14_consensus_proposals_reach_no_handler
    (participants : list string) timeoutMs startTime polls (o : Outgoing)
    key fetch now (message : Message) (a : Intersection.Agent) :
  o ∈ fst (Consensus.gatherConsensus participants timeoutMs startTime polls) ->
  p_type (payload message) = payload_type (o_payload o) ->
  o_recipient o ∈ participants
  /\ o_message_type o = proposal
  /\ payload_type (o_payload o) = None
  /\ Intersection.processMessage key fetch now message a = (a, Returned tt)
  /\ forall (w : BaseAgent.World Intersection.Agent),
       now - timestamp message <= ttl message * 1000 ->
       BaseAgent.agent w = a ->
       BaseAgent.handleIncomingMessage (Intersection.processMessage key fetch) now message w
       = (BaseAgent.updateMessageStatus (msg_id message) delivered
            {| BaseAgent.agent := a; BaseAgent.isActive := BaseAgent.isActive w;
               BaseAgent.coordination_messages := BaseAgent.coordination_messages w;
               BaseAgent.processed := BaseAgent.processed w ++ [message] |},
          Returned tt)
       /\ (BaseAgent.coordination_messages w !! msg_id message = Some pending ->
           BaseAgent.coordination_messages
             (fst (BaseAgent.handleIncomingMessage
                     (Intersection.processMessage key fetch) now message w))
           !! msg_id message
           = Some delivered)
       /\ Intersection.effects
            (BaseAgent.agent
               (fst (BaseAgent.handleIncomingMessage
                       (Intersection.processMessage key fetch) now message w)))
          = Intersection.effects a.
Proof.
  intros Hin Ht. unfold Consensus.gatherConsensus, broadcast in Hin. simpl in Hin.
  apply list_elem_of_In, in_map_iff in Hin as (r & <- & Hr).
  simpl in *.
  assert (Hp : Intersection.processMessage key fetch now message a = (a, Returned tt)).
  { rewrite processMessage_dispatch.
    apply processMessage_untyped. exact Ht. }
  split; [by apply list_elem_of_In|]. split; [reflexivity|]. split; [reflexivity|].
  split; [exact Hp|].
  intros w Hage Hw. rewrite handleIncomingMessage_fresh by exact Hage.
  rewrite Hw, Hp. split; [reflexivity|]. split; [|reflexivity].
  intros Hrow. cbn [fst BaseAgent.updateMessageStatus BaseAgent.coordination_messages].
  rewrite lookup_alter_eq, Hrow. reflexivity.
Qed.


(** ** The fleet coordinator *)

Section FleetExtras.
Import Fleet.

Lemma select_from limit (eligible : VehicleInfo -> bool)
    (vehicles : list (string * VehicleInfo)) (chosen : list string) :
  fold_left
    (fun chosen '(key, vehicle) =>
       if match limit with
          | Some n => Z.of_nat (length chosen) <? n
          | None => false
          end && eligible vehicle
       then chosen ++ [key] else chosen)
    vehicles chosen
  = match limit with
    | Some n =>
        chosen ++ take (Z.to_nat n - length chosen)
                       (map fst (List.filter (fun kv => eligible (snd kv)) vehicles))
    | None => chosen
    end.
Proof.
  revert chosen. induction vehicles as [|[k v] rest IH]; intros chosen.
  - simpl. destruct limit; [rewrite take_nil, app_nil_r|]; reflexivity.
  - simpl. rewrite IH. destruct limit as [n|]; [|reflexivity].
    destruct (eligible v) eqn:E; simpl.
    + destruct (Z.ltb_spec (Z.of_nat (length chosen)) n) as [Hlt|Hge]; simpl.
      * rewrite length_app. simpl.
        replace (Z.to_nat n - length chosen)%nat
          with (S (Z.to_nat n - (length chosen + 1)))%nat by lia.
        simpl. rewrite <- app_assoc. reflexivity.
      * replace (Z.to_nat n - length chosen)%nat with 0%nat by lia. reflexivity.
    + rewrite andb_false_r. reflexivity.
Qed.

Lemma select_spec limit (eligible : VehicleInfo -> bool)
    (vehicles : list (string * VehicleInfo)) :
  select limit eligible vehicles
  = match limit with
    | Some n =>
        take (Z.to_nat n) (map fst (List.filter (fun kv => eligible (snd kv)) vehicles))
    | None => []
    end.
Proof.
  unfold select. rewrite select_from. destruct limit; [|reflexivity].
  simpl. by rewrite Nat.sub_0_r.
Qed.

Lemma selectVehiclesForRebalancing_avoided (a : Agent) (targetDistrict : string)
    (count : option Z) :
  avoided a targetDistrict = true ->
  selectVehiclesForRebalancing a targetDistrict count = [].
Proof.
  intros H. unfold selectVehiclesForRebalancing. rewrite select_spec.
  fold (avoided a targetDistrict). rewrite H.
  destruct count as [n|]; [|reflexivity].
  assert (E : List.filter (fun kv : string * VehicleInfo =>
                 bool_decide (status (snd kv) = idle) && (passengerCount (snd kv) =? 0)
                 && negb true) (activeVehicles a) = []).
  { induction (activeVehicles a) as [|kv rest IH]; [reflexivity|].
    simpl. rewrite andb_false_r. exact IH. }
  rewrite E. apply take_nil.
Qed.

(** X15: rebalancing selects only idle vehicles without passengers, at most
    the requested count of them, the first ones in the order of the map;
    none when the target district is one the fleet avoids or when no count
    is given. *)
Theorem X15_rebalancing_moves_only_idle_empty_vehicles (a : Agent)
    (targetDistrict : string) (count : option Z) :
  let selected := selectVehiclesForRebalancing a targetDistrict count in
  (avoided a targetDistrict = true -> selected = [])
  /\ (count = None -> selected = [])
  /\ (forall n, count = Some n -> avoided a targetDistrict = false ->
       selected
       = take (Z.to_nat n)
              (map fst (List.filter (fun kv => movable (snd kv)) (activeVehicles a))))
  /\ (forall n, count = Some n -> (Z.of_nat (length selected) <= Z.max 0 n))
  /\ (forall key, key ∈ selected ->
       exists vehicle, (key, vehicle) ∈ activeVehicles a
         /\ status vehicle = idle /\ passengerCount vehicle = 0).
Proof.
  intros selected. subst selected. unfold selectVehiclesForRebalancing.
  rewrite select_spec. fold (avoided a targetDistrict).
  assert (Hav : avoided a targetDistrict = true ->
                List.filter (fun kv : string * VehicleInfo =>
                   bool_decide (status (snd kv) = idle) && (passengerCount (snd kv) =? 0)
                   && negb (avoided a targetDistrict)) (activeVehicles a) = []).
  { intros ->. induction (activeVehicles a) as [|kv rest IH]; [reflexivity|].
    simpl. rewrite andb_false_r. exact IH. }
  assert (Hok : avoided a targetDistrict = false ->
                List.filter (fun kv : string * VehicleInfo =>
                   bool_decide (status (snd kv) = idle) && (passengerCount (snd kv) =? 0)
                   && negb (avoided a targetDistrict)) (activeVehicles a)
                = List.filter (fun kv => movable (snd kv)) (activeVehicles a)).
  { intros ->. apply filter_ext. intros kv. unfold movable. by rewrite andb_true_r. }
  split; [|split; [|split; [|split]]].
  - intros H. rewrite (Hav H). destruct count; [apply take_nil | reflexivity].
  - intros ->. reflexivity.
  - intros n -> H. rewrite (Hok H). reflexivity.
  - intros n ->. rewrite length_take. lia.
  - intros key Hin. destruct count as [n|]; [|by apply elem_of_nil in Hin].
    apply subseteq_take in Hin. apply list_elem_of_In in Hin.
    apply in_map_iff in Hin as ([k v] & <- & Hf).
    apply filter_In in Hf as [Hv Hf]. exists v. simpl in *.
    apply andb_prop in Hf as [Hf _]. apply andb_prop in Hf as [H1 H2].
    split; [by apply list_elem_of_In|]. split.
    + by apply bool_decide_eq_true in H1.
    + by apply Z.eqb_eq.
Qed.


(** X16: a rebalancing request for which no vehicle is selected, as for an
    avoided district, is not answered at all and changes nothing.  Otherwise
    every selected vehicle gets a directive, then the requester gets one
    acknowledgement with the number of vehicles, and the vehicle map is
    unchanged. *)
Theorem X16_rebalancing_request_without_candidates_is_silent
    (message : RebalancingRequest) (a : Agent) :
  let selected :=
    selectVehiclesForRebalancing a (toDistrict message) (vehicleCount message) in
  (selected = [] -> handleRebalancingRequest message a = a)
  /\ (avoided a (toDistrict message) = true -> handleRebalancingRequest message a = a)
  /\ (selected <> [] ->
      outbox (handleRebalancingRequest message a)
      = outbox a
        ++ map (fun vehicleId =>
                  {| to := "vehicle-" +:+ vehicleId; kind := info;
                     reply := rebalance_directive (toDistrict message) |}) selected
        ++ [ {| to := requester message; kind := info;
                reply := rebalancing_ack (length selected) 600 |} ]
      /\ activeVehicles (handleRebalancingRequest message a) = activeVehicles a).
Proof.
  intros selected.
  assert (Hempty : selected = [] -> handleRebalancingRequest message a = a).
  { intros H. unfold handleRebalancingRequest. fold selected. rewrite H. reflexivity. }
  split; [exact Hempty|]. split.
  - intros H. apply Hempty.
    exact (selectVehiclesForRebalancing_avoided a (toDistrict message)
             (vehicleCount message) H).
  - intros H. unfold handleRebalancingRequest. fold selected.
    destruct selected as [|v rest]; [contradiction|]. simpl. split; reflexivity.
Qed.

(** X17: a coordination proposal gets exactly one answer, sent to the
    proposal's sender: an acceptance with the committed vehicles when the
    privacy and business checks pass, a rejection otherwise.  Only an
    acceptance counts as a coordination; the standing, the vehicles and the
    configuration are unchanged; a cooperative fleet passes every privacy
    check. *)
Theorem X17_every_proposal_gets_one_answer (message : CoordinationProposal) (a : Agent) :
  let a' := handleCoordinationProposal message a in
  let agreed :=
    meetsPrivacyRequirements a (proposal message)
    && evaluateCoordinationProposal a (proposal message) in
  (exists answer,
     outbox a' = outbox a ++ [answer]
     /\ to answer = sender message
     /\ (if agreed
         then kind answer = acceptance
              /\ reply answer
                 = accepted (proposalId message)
                     (selectVehiclesForCoordination a (proposal message))
         else kind answer = rejection
              /\ exists reason, reply answer = rejected (proposalId message) reason))
  /\ recentCoordinations a' = recentCoordinations a + (if agreed then 1 else 0)
  /\ priorityScore a' = priorityScore a
  /\ activeVehicles a' = activeVehicles a
  /\ fleetConfig a' = fleetConfig a
  /\ (privacyLevel (fleetConfig a) = cooperative ->
      meetsPrivacyRequirements a (proposal message) = true).
Proof.
  intros a' agreed. subst a' agreed. unfold handleCoordinationProposal.
  destruct (meetsPrivacyRequirements a (proposal message)) eqn:Hm; simpl.
  - destruct (evaluateCoordinationProposal a (proposal message)) eqn:He; simpl.
    + split; [eexists; split; [reflexivity|]; simpl; auto|].
      repeat split; try reflexivity.
    + split; [eexists; split; [reflexivity|]; simpl; eauto|].
      repeat split; try reflexivity. lia.
  - split; [eexists; split; [reflexivity|]; simpl; eauto|].
    split; [lia|]. repeat split; try reflexivity.
    intros Hc. unfold meetsPrivacyRequirements in Hm. rewrite Hc in Hm. discriminate.
Qed.

(** X18: a proposal turned down only because the fleet's standing is below
    30 and the proposal's priority below 8 is answered with a rejection whose
    reason reads [Proposal accepted]. *)
Theorem X18_low_standing_rejection_says_accepted (message : CoordinationProposal)
    (a : Agent) :
  meetsPrivacyRequirements a (proposal message) = true ->
  negative_benefit (proposal message) = false ->
  too_many_affected a (proposal message) = false ->
  low_standing a (proposal message) = true ->
  handleCoordinationProposal message a
  = post [ {| to := sender message; kind := rejection;
              reply := rejected (proposalId message) "Proposal accepted" |} ] a
  /\ outbox (handleCoordinationProposal message a)
     = outbox a
       ++ [ {| to := sender message; kind := rejection;
               reply := rejected (proposalId message) "Proposal accepted" |} ]
  /\ recentCoordinations (handleCoordinationProposal message a) = recentCoordinations a.
Proof.
  intros Hm Hb Ht Hl. unfold handleCoordinationProposal, evaluateCoordinationProposal,
    getCoordinationReasoning.
  rewrite Hm, Hb, Ht, Hl. repeat split; reflexivity.
Qed.

Lemma updatePriorityScore_quiet (a : Agent) :
  recentCoordinations a = 0 ->
  priorityScore (updatePriorityScore a) = Z.min 100 (priorityScore a + 2)
  /\ recentCoordinations (updatePriorityScore a) = 0.
Proof. intros H. unfold updatePriorityScore. simpl. rewrite H. split; reflexivity. Qed.

Lemma quiet_minutes (n : nat) (a : Agent) :
  recentCoordinations a = 0 -> priorityScore a <= 100 ->
  priorityScore (Nat.iter n updatePriorityScore a)
  = Z.min 100 (priorityScore a + 2 * Z.of_nat n)
  /\ recentCoordinations (Nat.iter n updatePriorityScore a) = 0.
Proof.
  intros Hr Hs. induction n as [|n [IH1 IH2]].
  - simpl. split; [lia | exact Hr].
  - change (Nat.iter (S n) updatePriorityScore a)
      with (updatePriorityScore (Nat.iter n updatePriorityScore a)).
    destruct (updatePriorityScore_quiet _ IH2) as [H1 H2].
    rewrite H1, IH1. split; [lia | exact H2].
Qed.

(** X19: the periodic update keeps a standing between 0 and 100 in that
    range, lowers it by at most 5 and raises it by at most 2, and resets the
    coordination counter; from then on every update without coordinations in
    between adds 2 until the standing is capped at 100. *)
Theorem X19_priority_score_stays_in_range (a : Agent) :
  0 <= priorityScore a <= 100 ->
  let a' := updatePriorityScore a in
  0 <= priorityScore a' <= 100
  /\ priorityScore a - 5 <= priorityScore a' <= priorityScore a + 2
  /\ recentCoordinations a' = 0
  /\ (forall n : nat,
        priorityScore (Nat.iter n updatePriorityScore a')
        = Z.min 100 (priorityScore a' + 2 * Z.of_nat n)).
Proof.
  intros Hs a'.
  assert (H : 0 <= priorityScore a' <= 100
              /\ priorityScore a - 5 <= priorityScore a' <= priorityScore a + 2
              /\ recentCoordinations a' = 0).
  { subst a'. unfold updatePriorityScore. simpl.
    destruct (5 <? recentCoordinations a); [lia|].
    destruct (recentCoordinations a <? 2); lia. }
  destruct H as (H1 & H2 & H3). repeat split; try lia.
  intros n. apply quiet_minutes; [exact H3 | lia].
Qed.


Lemma statistics_counts (vehicles : list (string * VehicleInfo))
    (start : nat * nat * Q * Q) :
  let result :=
    fold_left
      (fun '(activeCount, idleCount, totalWaitTime, passengerMiles) '(_, vehicle) =>
         let '(activeCount, idleCount) :=
           if decide (status vehicle = idle) then (activeCount, S idleCount)
           else (S activeCount, idleCount) in
         let totalWaitTime := (totalWaitTime + waitTime vehicle)%Q in
         let passengerMiles :=
           if decide (status vehicle = enroute) then
             if 0 <? passengerCount vehicle then (passengerMiles + (1 # 10))%Q
             else passengerMiles
           else passengerMiles in
         (activeCount, idleCount, totalWaitTime, passengerMiles))
      vehicles start in
  fst (fst (fst result))
  = (fst (fst (fst start))
     + length (List.filter (fun kv => negb (bool_decide (status (snd kv) = idle)))
                           vehicles))%nat
  /\ snd (fst (fst result))
     = (snd (fst (fst start))
        + length (List.filter (fun kv => bool_decide (status (snd kv) = idle))
                              vehicles))%nat.
Proof.
  revert start. induction vehicles as [|[k v] rest IH]; intros start.
  - simpl. split; lia.
  - cbn [fold_left]. cbv zeta in IH. cbv zeta.
    match goal with
    | |- context [fold_left ?f rest ?acc] => destruct (IH acc) as [H1 H2]
    end.
    rewrite H1, H2. destruct start as [[[ac ic] tw] pm]. cbn [List.filter snd fst].
    destruct (decide (status v = idle)) as [Hi|Hi].
    + rewrite (bool_decide_eq_true_2 _ Hi). cbn [negb length fst snd]. split; lia.
    + rewrite (bool_decide_eq_false_2 _ Hi). cbn [negb length fst snd]. split; lia.
Qed.

Lemma filter_split {A} (f : A -> bool) (l : list A) :
  (length (List.filter (fun x => negb (f x)) l) + length (List.filter f l))%nat = length l.
Proof.
  induction l as [|x rest IH]; [reflexivity|]. simpl.
  destruct (f x); simpl; lia.
Qed.

(** X20: the fleet statistics count every tracked vehicle once, as idle or
    as active; with no vehicle tracked the average wait time and the
    passenger miles are zero. *)
Theorem X20_fleet_statistics_count_every_vehicle (a : Agent) :
  let stats := calculateFleetStatistics a in
  (activeCount stats + idleCount stats)%nat = length (activeVehicles a)
  /\ idleCount stats
     = length (List.filter (fun kv => bool_decide (status (snd kv) = idle))
                           (activeVehicles a))
  /\ (activeVehicles a = [] -> (avgWaitTime stats == 0)%Q /\ (passengerMiles stats == 0)%Q).
Proof.
  intros stats. subst stats. unfold calculateFleetStatistics.
  pose proof (statistics_counts (activeVehicles a) (0%nat, 0%nat, 0%Q, 0%Q)) as H.
  cbv zeta in H.
  match type of H with
  | context [fold_left ?f (activeVehicles a) ?acc] =>
      destruct (fold_left f (activeVehicles a) acc) as [[[ac ic] tw] pm] eqn:E
  end.
  cbn [fst snd activeCount idleCount avgWaitTime passengerMiles] in *.
  destruct H as [H1 H2]. simpl in H1, H2. split; [|split].
  - rewrite H1, H2. apply filter_split.
  - exact H2.
  - intros He. rewrite He in E. cbn [fold_left] in E. inversion E; subst.
    rewrite He. cbn [length Nat.ltb Nat.leb]. split; apply Qeq_refl.
Qed.

Lemma Map_set_keys key info (vehicles : list (string * VehicleInfo)) :
  NoDup (map fst vehicles) ->
  NoDup (map fst (Map_set key info vehicles))
  /\ (forall k, k ∈ map fst (Map_set key info vehicles)
                <-> k = key \/ k ∈ map fst vehicles).
Proof.
  induction vehicles as [|[k v] rest IH]; intros Hnd; simpl.
  - split; [repeat constructor; by intros H%elem_of_nil|].
    intros k. rewrite elem_of_cons. split; intros [H|H]; auto; by apply elem_of_nil in H.
  - inversion Hnd as [|? ? Hk Hrest]; subst.
    destruct (String.eqb_spec k key) as [->|Hne]; simpl.
    + split; [exact Hnd|]. intros k'. rewrite elem_of_cons. tauto.
    + destruct (IH Hrest) as [H1 H2]. split.
      * constructor; [|exact H1]. rewrite H2. intros [H|H]; [congruence | contradiction].
      * intros k'. rewrite !elem_of_cons, H2. tauto.
Qed.

Lemma Map_set_entries key info (vehicles : list (string * VehicleInfo))
    (P : string -> VehicleInfo -> Prop) :
  P key info ->
  (forall k v, (k, v) ∈ vehicles -> P k v) ->
  forall k v, (k, v) ∈ Map_set key info vehicles -> P k v.
Proof.
  intros Hnew. induction vehicles as [|[k0 v0] rest IH]; intros Hold k v; simpl.
  - intros H. apply list_elem_of_singleton in H. by inversion H; subst.
  - destruct (String.eqb_spec k0 key) as [->|Hne].
    + intros H. apply elem_of_cons in H as [H|H].
      * by inversion H; subst.
      * apply Hold. by apply list_elem_of_further.
    + intros H. apply elem_of_cons in H as [H|H].
      * inversion H; subst. apply Hold. apply list_elem_of_here.
      * apply IH; [|exact H]. intros k' v' H'. apply Hold. by apply list_elem_of_further.
Qed.


Lemma or_else_nonzero (x : option Q) (fallback : Q) :
  ~ (fallback == 0)%Q -> ~ (Intersection.or_else x fallback == 0)%Q.
Proof.
  intros Hf. destruct x as [v|]; cbn [Intersection.or_else]; [|exact Hf].
  destruct (Qeq_bool v 0) eqn:E; [exact Hf|].
  intros H. apply Qeq_bool_iff in H. congruence.
Qed.

Lemma track_from (rows : list VehicleState) (start : list (string * VehicleInfo)) :
  NoDup (map fst start) ->
  (forall k v, (k, v) ∈ start -> id v = k /\ ~ (batteryLevel v == 0)%Q) ->
  let tracked :=
    fold_left
      (fun vehicles v =>
         Map_set (vehicle_id v)
           {| id := vehicle_id v;
              status := row_status v;
              batteryLevel := Intersection.or_else (battery_level v) 100;
              passengerCount :=
                match passenger_count v with Some n => n | None => 0 end;
              currentDistrict :=
                match row_district v with
                | Some (String c s) => String c s
                | _ => "unknown"%string
                end;
              waitTime := Intersection.or_else (wait_time v) 0 |}
           vehicles)
      rows start in
  NoDup (map fst tracked)
  /\ (forall k, k ∈ map fst tracked
                <-> k ∈ map fst start \/ k ∈ map vehicle_id rows)
  /\ (forall k v, (k, v) ∈ tracked -> id v = k /\ ~ (batteryLevel v == 0)%Q).
Proof.
  revert start. induction rows as [|row rest IH]; intros start Hnd Hp; cbv zeta.
  - simpl. split; [exact Hnd|]. split; [|exact Hp].
    intros k. rewrite elem_of_nil. tauto.
  - cbn [fold_left].
    match goal with
    | |- context [Map_set (vehicle_id row) ?info start] =>
        destruct (Map_set_keys (vehicle_id row) info start Hnd) as [Hnd' Hkeys];
        pose proof (Map_set_entries (vehicle_id row) info start
                      (fun k v => id v = k /\ ~ (batteryLevel v == 0)%Q)) as Hent;
        specialize (IH (Map_set (vehicle_id row) info start) Hnd')
    end.
    cbv zeta in IH. destruct IH as (H1 & H2 & H3).
    + apply Hent; [|exact Hp]. cbn [id batteryLevel]. split; [reflexivity|].
      apply or_else_nonzero. intros H. discriminate H.
    + split; [exact H1|]. split; [|exact H3].
      intros k. rewrite H2, Hkeys. cbn [map]. rewrite elem_of_cons. tauto.
Qed.

(** X21: after the fleet status is rebuilt from the rows, every vehicle of
    the rows is tracked under its id exactly once, however many rows it has,
    and no tracked vehicle has a battery level of zero. *)
Theorem X21_tracked_vehicles_are_keyed_once (rows : list VehicleState) :
  NoDup (map fst (track rows))
  /\ (forall k, k ∈ map fst (track rows) <-> k ∈ map vehicle_id rows)
  /\ (forall k v, (k, v) ∈ track rows -> id v = k /\ ~ (batteryLevel v == 0)%Q).
Proof.
  pose proof (track_from rows [] (NoDup_nil_2 : NoDup (map fst (@nil (string * VehicleInfo))))) as H. cbv zeta in H.
  destruct H as (H1 & H2 & H3).
  - intros k v Hin. by apply elem_of_nil in Hin.
  - split; [exact H1|]. split; [|exact H3].
    intros k. unfold track. rewrite H2. cbn [map]. rewrite elem_of_nil. tauto.
Qed.

End FleetExtras.


(** ** The master orchestrator *)

Section MasterExtras.
Import Master.

Lemma square_nonneg (d : Q) : (0 <= d * d)%Q.
Proof.
  destruct (Qlt_le_dec d 0) as [H|H].
  - apply Qle_trans with ((- d) * (- d))%Q.
    + apply Qmult_le_0_compat; lra.
    + apply Qle_lteq. right. ring.
  - apply Qmult_le_0_compat; exact H.
Qed.

Lemma squares_nonneg (mean : Q) (scores : list Q) (start : Q) :
  (0 <= start)%Q ->
  (0 <= fold_left (fun acc score => (acc + (score - mean) * (score - mean))%Q)
                  scores start)%Q.
Proof.
  revert start. induction scores as [|s rest IH]; intros start H; [exact H|].
  cbn [fold_left]. apply IH.
  pose proof (square_nonneg (s - mean)) as Hs.
  revert Hs. generalize ((s - mean) * (s - mean))%Q. intros q Hs. lra.
Qed.

Lemma count_nonneg (n : nat) : (0 <= inject_Z (Z.of_nat n))%Q.
Proof. change 0%Q with (inject_Z 0). rewrite <- Zle_Qle. lia. Qed.

Lemma quotient_nonneg (x y : Q) : (0 <= x)%Q -> (0 <= y)%Q -> (0 <= x / y)%Q.
Proof.
  intros Hx Hy. unfold Qdiv. apply Qmult_le_0_compat; [exact Hx|].
  apply Qinv_le_0_compat. exact Hy.
Qed.

(** X22: the fairness score is between 0 and 1, and it is 1 when there are
    no fleet statistics. *)
Theorem X22_fairness_score_between_zero_and_one (fleetStats : list (string * Q)) :
  (0 <= calculateFairnessScore fleetStats <= 1)%Q
  /\ (fleetStats = [] -> calculateFairnessScore fleetStats = 1%Q).
Proof.
  split; [|intros ->; reflexivity].
  destruct fleetStats as [|row rest]; [cbn [calculateFairnessScore]; lra|].
  unfold calculateFairnessScore. cbv zeta.
  match goal with
  | |- context [Intersection.Math_max 0 (1 - ?v / 100)] =>
      assert (Hv : (0 <= v)%Q);
      [ apply quotient_nonneg; [apply squares_nonneg; lra | apply count_nonneg]
      | revert Hv; generalize v ]
  end.
  intros variance Hv.
  unfold Intersection.Math_max, Qdiv. change (/ 100)%Q with (1 # 100)%Q.
  destruct (Qlt_le_dec 0 (1 - variance * (1 # 100))); lra.
Qed.

Lemma congestion_level (n : nat) :
  (Math_min (inject_Z (Z.of_nat n) / 100) 1 == inject_Z (Z.of_nat (Nat.min n 100)) / 100)%Q.
Proof.
  unfold Math_min, Qdiv. change (/ 100)%Q with (1 # 100)%Q.
  destruct (Qlt_le_dec 1 (inject_Z (Z.of_nat n) * (1 # 100))) as [H|H].
  - assert (Hn : (100 < inject_Z (Z.of_nat n))%Q) by lra.
    change 100%Q with (inject_Z 100) in Hn. rewrite <- Zlt_Qlt in Hn.
    rewrite Nat.min_r by lia. change (inject_Z (Z.of_nat 100)) with 100%Q. lra.
  - assert (Hn : (inject_Z (Z.of_nat n) <= 100)%Q) by lra.
    change 100%Q with (inject_Z 100) in Hn. rewrite <- Zle_Qle in Hn.
    rewrite Nat.min_l by lia. lra.
Qed.

(** X23: a district's congestion level is its vehicle count over a hundred,
    capped at 1; the district is a hotspot exactly when it has more than
    seventy vehicles; without vehicles its average wait time is zero. *)
Theorem X23_hotspot_means_more_than_seventy_vehicles
    (district : string) (wait_times : list (option Q)) :
  let d := congestion district wait_times in
  (0 <= congestionLevel d <= 1)%Q
  /\ (congestionLevel d == inject_Z (Z.of_nat (Nat.min (length wait_times) 100)) / 100)%Q
  /\ (hotspots [d] = [d] <-> (70 < length wait_times)%nat)
  /\ (hotspots [d] = [] <-> (length wait_times <= 70)%nat)
  /\ (wait_times = [] -> (avgWaitTime d == 0)%Q).
Proof.
  intros d. subst d. unfold congestion. cbv zeta. cbn [congestionLevel avgWaitTime].
  pose proof (congestion_level (length wait_times)) as Hc.
  pose proof (count_nonneg (Nat.min (length wait_times) 100)) as H0.
  assert (H1 : (inject_Z (Z.of_nat (Nat.min (length wait_times) 100)) <= 100)%Q).
  { change 100%Q with (inject_Z 100). rewrite <- Zle_Qle. lia. }
  assert (Hhot : (7 # 10 < Math_min (inject_Z (Z.of_nat (length wait_times)) / 100) 1)%Q
                 <-> (70 < length wait_times)%nat).
  { split.
    - intros H.
      assert (H' : (70 < inject_Z (Z.of_nat (Nat.min (length wait_times) 100)))%Q).
      { revert Hc H. unfold Qdiv. change (/ 100)%Q with (1 # 100)%Q.
        generalize (Math_min (inject_Z (Z.of_nat (length wait_times)) * (1 # 100)) 1).
        intros m Hc H. lra. }
      change 70%Q with (inject_Z 70) in H'. rewrite <- Zlt_Qlt in H'. lia.
    - intros H.
      assert (H' : (70 < inject_Z (Z.of_nat (Nat.min (length wait_times) 100)))%Q).
      { change 70%Q with (inject_Z 70). rewrite <- Zlt_Qlt. lia. }
      revert Hc. unfold Qdiv. change (/ 100)%Q with (1 # 100)%Q.
      generalize (Math_min (inject_Z (Z.of_nat (length wait_times)) * (1 # 100)) 1).
      intros m Hc. lra. }
  split; [|split; [exact Hc|split; [|split]]].
  - revert Hc. unfold Qdiv. change (/ 100)%Q with (1 # 100)%Q.
    generalize (Math_min (inject_Z (Z.of_nat (length wait_times)) * (1 # 100)) 1).
    intros m Hc. lra.
  - unfold hotspots. cbn [List.filter congestionLevel].
    destruct (Qlt_le_dec (7 # 10) _) as [H|H].
    + split; [intros _; by apply Hhot | reflexivity].
    + split; [discriminate|]. intros Hn. apply Hhot in Hn. lra.
  - unfold hotspots. cbn [List.filter congestionLevel].
    destruct (Qlt_le_dec (7 # 10) _) as [H|H].
    + split; [discriminate|]. intros Hn. apply Hhot in H. lia.
    + split; [|reflexivity]. intros _.
      destruct (Nat.le_gt_cases (length wait_times) 70) as [|Hgt]; [assumption|].
      apply Hhot in Hgt. lra.
  - intros ->. cbn. apply Qeq_refl.
Qed.

Lemma count_succ (n : nat) :
  inject_Z (Z.of_nat (S n)) = (inject_Z (Z.of_nat n) + 1)%Q.
Proof. rewrite Nat2Z.inj_succ. unfold Z.succ. apply inject_Z_plus. Qed.

Lemma sum_level (s : Q) (scores : list Q) (start : Q) :
  Forall (fun score => (score == s)%Q) scores ->
  (fold_left Qplus scores start == start + inject_Z (Z.of_nat (length scores)) * s)%Q.
Proof.
  revert start. induction scores as [|x rest IH]; intros start H.
  - cbn [fold_left length Z.of_nat]. change (inject_Z 0) with 0%Q. ring.
  - inversion H as [|? ? Hx Hrest]; subst.
    cbn [fold_left length]. rewrite count_succ.
    apply Qeq_trans with (start + x + inject_Z (Z.of_nat (length rest)) * s)%Q;
      [exact (IH _ Hrest)|].
    assert (E : ((inject_Z (Z.of_nat (length rest)) + 1) * s
                 == inject_Z (Z.of_nat (length rest)) * s + s)%Q) by ring.
    revert E.
    generalize ((inject_Z (Z.of_nat (length rest)) + 1) * s)%Q.
    generalize (inject_Z (Z.of_nat (length rest)) * s)%Q.
    intros p q E. lra.
Qed.

Lemma average_level (s : Q) (scores : list Q) :
  level s scores -> (average scores == s)%Q.
Proof.
  intros [Hne H]. unfold average, sum.
  assert (Hn : ~ (inject_Z (Z.of_nat (length scores)) == 0)%Q).
  { destruct scores as [|x rest]; [contradiction|].
    cbn [length]. rewrite count_succ. pose proof (count_nonneg (length rest)). lra. }
  pose proof (sum_level s scores 0 H) as E.
  revert Hn E. generalize (inject_Z (Z.of_nat (length scores))).
  generalize (fold_left Qplus scores 0%Q). intros total n Hn E.
  apply Qeq_trans with ((n * s) / n)%Q.
  - unfold Qdiv. apply Qmult_comp; [|apply Qeq_refl].
    apply Qeq_trans with (0 + n * s)%Q; [exact E | ring].
  - field. exact Hn.
Qed.

Lemma push_score_level (s score : Q) (company : string) (stats : list (string * list Q)) :
  (score == s)%Q ->
  Forall (fun entry => level s (snd entry)) stats ->
  Forall (fun entry => level s (snd entry)) (push_score company score stats)
  /\ push_score company score stats <> [].
Proof.
  intros Hs. induction stats as [|[k scores] rest IH]; intros H.
  - cbn [push_score]. split; [|discriminate].
    constructor; [|constructor]. split; [discriminate|].
    constructor; [exact Hs | constructor].
  - inversion H as [|? ? [Hne Hk] Hrest]; subst. cbn [push_score].
    destruct (String.eqb k company).
    + split; [|discriminate]. constructor; [|exact Hrest].
      split; [destruct scores; discriminate|].
      apply Forall_app. split; [exact Hk|]. constructor; [exact Hs | constructor].
    + split; [|discriminate]. constructor; [split; assumption|].
      exact (proj1 (IH Hrest)).
Qed.

Lemma grouped_level (s : Q) (rows : list (string * Q)) (stats : list (string * list Q)) :
  Forall (fun row => (snd row == s)%Q) rows ->
  Forall (fun entry => level s (snd entry)) stats ->
  (rows <> [] \/ stats <> []) ->
  let grouped :=
    fold_left (fun stats '(company, priority_score) =>
                 push_score company priority_score stats) rows stats in
  Forall (fun entry => level s (snd entry)) grouped /\ grouped <> [].
Proof.
  revert stats. induction rows as [|[company score] rest IH]; intros stats Hrows Hstats Hne.
  - cbn [fold_left]. split; [exact Hstats|]. destruct Hne as [Hne|Hne]; [contradiction|exact Hne].
  - inversion Hrows as [|? ? Hrow Hrest]; subst. cbn [fold_left].
    destruct (push_score_level s score company stats Hrow Hstats) as [Hl Hn].
    apply IH; [exact Hrest | exact Hl | right; exact Hn].
Qed.

Lemma squares_level (mean s : Q) (scores : list Q) (start : Q) :
  (mean == s)%Q ->
  Forall (fun score => (score == s)%Q) scores ->
  (fold_left (fun acc score => (acc + (score - mean) * (score - mean))%Q) scores start
   == start)%Q.
Proof.
  intros Hm. revert start. induction scores as [|x rest IH]; intros start H.
  - apply Qeq_refl.
  - inversion H as [|? ? Hx Hrest]; subst. cbn [fold_left].
    apply Qeq_trans with (start + (x - mean) * (x - mean))%Q; [exact (IH _ Hrest)|].
    assert (E : (x - mean == 0)%Q) by lra.
    apply Qeq_trans with (start + 0 * 0)%Q; [|ring].
    apply Qplus_comp; [apply Qeq_refl|]. apply Qmult_comp; exact E.
Qed.

(** X24: when every row of the fleet statistics carries the same priority
    score, the fairness score is 1, whatever the companies and the number
    of rows. *)
Theorem X24_equal_standing_is_perfectly_fair (s : Q) (fleetStats : list (string * Q)) :
  Forall (fun row => (snd row == s)%Q) fleetStats ->
  (calculateFairnessScore fleetStats == 1)%Q.
Proof.
  intros Hrows. destruct fleetStats as [|row rest]; [apply Qeq_refl|].
  unfold calculateFairnessScore. cbv zeta.
  destruct (grouped_level s (row :: rest) [] Hrows (Forall_nil_2 _)) as [Hl Hn];
    [left; discriminate|].
  cbv zeta in Hl, Hn. revert Hl Hn.
  generalize (fold_left (fun stats '(company, priority_score) =>
                           push_score company priority_score stats) (row :: rest) []).
  intros grouped Hl Hn.
  assert (Havg : level s (map (fun entry => average (snd entry)) grouped)).
  { split; [destruct grouped; [contradiction|discriminate]|].
    clear Hn. induction Hl as [|entry more Hentry _ IH]; [constructor|].
    cbn [map]. constructor; [exact (average_level s _ Hentry) | exact IH]. }
  revert Havg. generalize (map (fun entry => average (snd entry)) grouped).
  intros avgScores Havg.
  pose proof (average_level s avgScores Havg) as Hmean.
  pose proof (squares_level (average avgScores) s avgScores 0 Hmean (proj2 Havg)) as Hsq.
  revert Hsq.
  generalize (fold_left (fun acc score =>
                (acc + (score - average avgScores) * (score - average avgScores))%Q)
                avgScores 0%Q).
  intros total Hsq.
  assert (Hv : (total / inject_Z (Z.of_nat (length avgScores)) == 0)%Q).
  { unfold Qdiv. apply Qeq_trans with (0 * / inject_Z (Z.of_nat (length avgScores)))%Q;
      [|ring]. apply Qmult_comp; [exact Hsq | apply Qeq_refl]. }
  revert Hv. generalize (total / inject_Z (Z.of_nat (length avgScores)))%Q.
  intros variance Hv.
  unfold Intersection.Math_max, Qdiv. change (/ 100)%Q with (1 # 100)%Q.
  destruct (Qlt_le_dec 0 (1 - variance * (1 # 100))); lra.
Qed.

End MasterExtras.

(** ** The properties at concrete inputs *)

Lemma X6_witness :
  Nvidia.crossingOrder (Nvidia.fields Samples.north_only) = Some ["v1"%string]
  /\ map (fun '(k, q) => (k, unlisted ["v1"%string] q))
       (Intersection.queuesByDirection
          (fst (Intersection.executeCrossingOrder Samples.north_only Samples.two_waiting)))
     = map (fun '(k, q) => (k, unlisted ["v1"%string] q))
         (Intersection.queuesByDirection Samples.two_waiting).
Proof.
  split; [reflexivity|].
  apply X6_unlisted_vehicles_stay. reflexivity.
Defined.

Lemma X7_witness :
  snd (Intersection.runAuctionNegotiation Traffic.key Samples.answers 6000
         Samples.two_waiting)
  = Returned tt.
Proof.
  refine (proj1 (X7_complete_result_completes Traffic.key Samples.answers 6000
                   Samples.two_waiting Samples.both_cross ["v1"; "v2"]%string
                   Samples.both_times [("waymo"%string, Number.of_Z 1)] _ _ _ _));
    reflexivity.
Defined.

Lemma X8_witness :
  Intersection.get (Some "north"%string)
    (Intersection.queuesByDirection
       (fst (Intersection.handleCrossingRequest Traffic.key Traffic.unreachable 3000
               Samples.second_north Traffic.one_waiting)))
  = Some (Samples.north_queue
          ++ [arriving 3000 Samples.second_north Traffic.one_waiting]).
Proof.
  refine (proj1 (proj2 (X8_lone_direction_is_queued Traffic.key Traffic.unreachable 3000
                          Samples.second_north Traffic.one_waiting "north"%string
                          Samples.north_queue _ _ _ _))).
  - apply (bool_decide_unpack (NoDup (keys Traffic.one_waiting))). vm_compute. exact I.
  - reflexivity.
  - vm_compute. reflexivity.
  - vm_compute.
    repeat (constructor; [first [left; reflexivity | right; reflexivity]|]).
    constructor.
Defined.


Lemma X12_witness :
  p_batteryLevel (payload Samples.flat) = Some 0%Q
  /\ Intersection.batteryLevel
       (arriving 7000 Samples.flat (Intersection.new "vanness-market"))
     = 100%Q.
Proof.
  split; [reflexivity|].
  refine (proj1 (proj1 (X12_reported_battery_zero_is_stored_full 7000 8000 Samples.flat
                          (Intersection.new "vanness-market") (∅ : gmap string spec_float) 0%Q _)
                   _)).
  - reflexivity.
  - apply Qeq_refl.
Defined.

Lemma X14_witness :
  Intersection.processMessage Traffic.key Traffic.unreachable 2000
    Samples.consensus_proposal Traffic.one_waiting
  = (Traffic.one_waiting, Returned tt).
Proof.
  refine (proj1 (proj2 (proj2 (proj2
            (X14_consensus_proposals_reach_no_handler Scenario.ten 5000 1000
               Scenario.nobody_answers
               (sendMessage "d1" proposal (proposal_body 5000) 10 default_ttl)
               Traffic.key Traffic.unreachable 2000 Samples.consensus_proposal
               Traffic.one_waiting _ _))))).
  - apply list_elem_of_In. vm_compute. left. reflexivity.
  - reflexivity.
Defined.

Lemma X18_witness :
  Fleet.handleCoordinationProposal Samples.modest Samples.sidelined
  = Fleet.post
      [ {| Fleet.to := Fleet.sender Samples.modest; Fleet.kind := rejection;
           Fleet.reply :=
             Fleet.rejected (Fleet.proposalId Samples.modest) "Proposal accepted" |} ]
      Samples.sidelined.
Proof.
  refine (proj1 (X18_low_standing_rejection_says_accepted Samples.modest
                   Samples.sidelined _ _ _ _)); vm_compute; reflexivity.
Defined.

Lemma X19_witness :
  0 <= Fleet.priorityScore (Fleet.updatePriorityScore (Fleet.new Samples.zoox)) <= 100.
Proof.
  refine (proj1 (X19_priority_score_stays_in_range (Fleet.new Samples.zoox) _)).
  vm_compute. split; discriminate.
Defined.

Lemma X24_witness : (Master.calculateFairnessScore Samples.even_rows == 1)%Q.
Proof.
  apply (X24_equal_standing_is_perfectly_fair 50%Q).
  unfold Samples.even_rows.
  repeat (constructor; [vm_compute; reflexivity|]).
  constructor.
Defined.
